(** * torchtitan/utils.py: a shallow embedding and its verified properties

    The Python module is a set of short helpers around the process
    environment, the logger and the distributed runtime.  The process-wide
    state the helpers touch ([os.environ]) is a finite map; every call the
    helpers make on the outside world (logger, file system, distributed
    runtime, device) is recorded, in program order, in a history of events,
    so that claims about ordering can be stated on that history. *)

From Stdlib Require Import ZArith Lia.
From stdpp Require Import base strings gmap list pretty.

Local Open Scope string_scope.
Local Open Scope Z_scope.

(** ** Data of the outside world *)

(** [datetime.timedelta(seconds=n)] for an integer [n]. *)
Record timedelta := Timedelta { td_seconds : Z }.

(** A process group owned by the communication runtime, known by its id. *)
Record ProcessGroup := PG { pg_id : nat }.

(** One observable call on the outside world. *)
Inductive event :=
  | LogWarning (msg : string)
  | LogInfo (msg : string)
  | EnvWrite (key val : string)
  | Makedirs (path : string)
  | InitProcessGroup (backend : string) (timeout : timedelta)
  | Barrier
  | CudaSynchronize
  | SetPgTimeout (timeout : timedelta) (group : option ProcessGroup).

(** The process: its environment and what it has done so far (oldest first). *)
Record world := World {
  os_environ : gmap string string;
  history : list event
}.

(** ** A state monad over the process *)

Definition M (A : Type) : Type := world → A * world.

Definition m_ret {A} (a : A) : M A := λ w, (a, w).
Definition m_bind {A B} (m : M A) (k : A → M B) : M B :=
  λ w, let '(a, w') := m w in k a w'.

Declare Scope m_scope.
Delimit Scope m_scope with M.
Notation "'let*' x := m 'in' k" := (m_bind m (λ x, k))
  (at level 10, x name, m at level 100, k at level 200) : m_scope.
Notation "m >> k" := (m_bind m (λ _, k))
  (at level 100, k at level 200, right associativity) : m_scope.

Definition exec {A} (m : M A) (w : world) : world := snd (m w).

(** What a run of [m] from [w] added to the history. *)
Definition emitted {A} (m : M A) (w : world) : list event :=
  drop (length (history w)) (history (exec m w)).

Definition emit (e : event) : M unit :=
  λ w, (tt, World (os_environ w) (history w ++ [e])).

Definition environ_get (k : string) : M (option string) :=
  λ w, (os_environ w !! k, w).

(** [os.environ[k] = v] *)
Definition environ_setitem (k v : string) : M unit :=
  λ w, (tt, World (<[k := v]> (os_environ w)) (history w ++ [EnvWrite k v])).

Definition logger_warning (msg : string) : M unit := emit (LogWarning msg).
Definition logger_info (msg : string) : M unit := emit (LogInfo msg).

(** ** [_warn_overwrite_env] (utils.py, lines 26-31) *)

(** The f-string of the warning. *)
Definition overwrite_msg (env old val : string) : string :=
  "ENV[" +:+ env +:+ "] = " +:+ old +:+ " will be overridden to " +:+ val
    +:+ " based on job config".

Definition _warn_overwrite_env (env val : string) : M unit :=
  (let* old := environ_get env in
   match old with
   | Some o => logger_warning (overwrite_msg env o val)
   | None => m_ret tt
   end >>
   environ_setitem env val)%M.

(** The warnings among a list of events. *)
Definition warnings (es : list event) : list string :=
  omap (λ e, match e with LogWarning m => Some m | _ => None end) es.

(** ** [set_pg_timeouts] (utils.py, lines 34-60) *)

(** A [DeviceMesh]: one process group per mesh dimension. *)
Record DeviceMesh := Mesh { dim_groups : list ProcessGroup }.

Definition ndim (m : DeviceMesh) : nat := length (dim_groups m).

(** [DeviceMesh.get_group()] without a dimension: the single group of a 1-D
    mesh, the list of all the groups otherwise. *)
Inductive group_result :=
  | Single (g : ProcessGroup)
  | Several (gs : list ProcessGroup).

Definition get_group (m : DeviceMesh) : group_result :=
  match dim_groups m with
  | [g] => Single g
  | gs => Several gs
  end.

(** [[world_mesh.get_group()] if world_mesh.ndim == 1 else world_mesh.get_group()].
    The elements are groups or [None], the default group.  [get_group] gives
    a single group exactly on a 1-D mesh (lemma [get_group_shape] below), so
    the last two cases do not arise. *)
Definition mesh_group_list (m : DeviceMesh) : list (option ProcessGroup) :=
  match Nat.eqb (ndim m) 1, get_group m with
  | true, Single g => [Some g]
  | false, Several gs => Some <$> gs
  | true, Several _ => []
  | false, Single _ => []
  end.

Fixpoint for_each {A} (body : A → M unit) (l : list A) : M unit :=
  match l with
  | [] => m_ret tt
  | x :: l' => (body x >> for_each body l')%M
  end.

Definition barrier : M unit := emit Barrier.
Definition cuda_synchronize : M unit := emit CudaSynchronize.
Definition _set_pg_timeout (timeout : timedelta) (group : option ProcessGroup)
  : M unit := emit (SetPgTimeout timeout group).

Section SetPgTimeouts.
(** [str] of a [timedelta], as the f-string of the info line prints it. *)
Variable str_timedelta : timedelta → string.

Definition set_pg_timeouts (timeout : timedelta) (world_mesh : DeviceMesh)
  : M unit :=
  (logger_info ("Synchronizing and adjusting timeout for all ProcessGroups to "
                +:+ str_timedelta timeout) >>
   barrier >>
   cuda_synchronize >>
   let groups := mesh_group_list world_mesh in
   let groups := (groups ++ [None])%list in
   for_each (λ group, _set_pg_timeout timeout group) groups)%M.
End SetPgTimeouts.

(** ** [init_distributed] (utils.py, lines 63-93) *)

Definition TRACE_BUFFER_SIZE := "TORCH_NCCL_TRACE_BUFFER_SIZE".
Definition TRACE_FILE := "TORCH_NCCL_DEBUG_INFO_TEMP_FILE".
Definition DUMP_ON_TIMEOUT := "TORCH_NCCL_DUMP_ON_TIMEOUT".
Definition ASYNC_ERROR_HANDLING := "TORCH_NCCL_ASYNC_ERROR_HANDLING".
Definition SKIP_CLEANUP := "3".
Definition AVOID_RECORD_STREAMS := "TORCH_NCCL_AVOID_RECORD_STREAMS".

Record Comm := { trace_buf_size : Z; init_timeout_seconds : Z }.
Record Job := { dump_folder : string }.
Record JobConfig := { comm : Comm; job : Job }.

(** [str(n)] for a Python int. *)
Definition str_int (n : Z) : string := pretty n.

Definition makedirs (path : string) : M unit := emit (Makedirs path).
Definition init_process_group (backend : string) (timeout : timedelta)
  : M unit := emit (InitProcessGroup backend timeout).

Definition init_distributed (job_config : JobConfig) : M unit :=
  (_warn_overwrite_env ASYNC_ERROR_HANDLING SKIP_CLEANUP >>
   _warn_overwrite_env TRACE_BUFFER_SIZE
     (str_int (trace_buf_size (comm job_config))) >>
   (if 0 <? trace_buf_size (comm job_config) then
      _warn_overwrite_env DUMP_ON_TIMEOUT "1" >>
      let dump_dir := dump_folder (job job_config) +:+ "/comm_trace" in
      makedirs dump_dir >>
      _warn_overwrite_env TRACE_FILE (dump_dir +:+ "/rank_")
    else m_ret tt) >>
   init_process_group "nccl"
     (Timedelta (init_timeout_seconds (comm job_config))) >>
   environ_setitem AVOID_RECORD_STREAMS "1")%M.

(** ** [get_num_params] (utils.py, lines 96-105) *)

Record nn_Parameter := Param { numel : Z; requires_grad : bool }.

(** A [torch.nn.Module], as far as the helper looks at it. *)
Record nn_Module := { parameters : list nn_Parameter }.

(** Python's [sum]: start from 0, add from the left. *)
Definition py_sum (l : list Z) : Z := foldl Z.add 0 l.

Definition get_num_params (model : nn_Module) (only_trainable : bool) : Z :=
  let param_list := parameters model in
  let param_list :=
    if only_trainable then filter (λ p, requires_grad p = true) param_list
    else param_list in
  py_sum (numel <$> param_list).

(** ** [get_num_flop_per_token] (utils.py, lines 108-116) *)

Inductive exn := ZeroDivisionError.

Inductive result (A : Type) :=
  | Ok (a : A)
  | Raise (e : exn).
Arguments Ok {A} a.
Arguments Raise {A} e.

(** [a // b] on Python ints: floor division, an exception when [b] is 0. *)
Definition floordiv (a b : Z) : result Z :=
  if b =? 0 then Raise ZeroDivisionError else Ok (a / b).

Record ModelArgs := { n_layers : Z; n_heads : Z; dim : Z }.

Definition get_num_flop_per_token
    (num_params : Z) (model_config : ModelArgs) (seq_len : Z) : result Z :=
  match floordiv (dim model_config) (n_heads model_config) with
  | Raise e => Raise e
  | Ok q =>
      let l := n_layers model_config in
      let h := n_heads model_config in
      let t := seq_len in
      let flop_per_token := 6 * num_params + 12 * l * h * q * t in
      Ok flop_per_token
  end.

(** ** [get_peak_flops] (utils.py, lines 119-134) *)

Fixpoint starts_with (p s : string) : bool :=
  match p, s with
  | EmptyString, _ => true
  | String _ _, EmptyString => false
  | String a p', String b s' => if Ascii.eqb a b then starts_with p' s' else false
  end.

(** [sub in s] on Python strings. *)
Fixpoint str_in (sub s : string) : bool :=
  starts_with sub s ||
  match s with
  | EmptyString => false
  | String _ s' => str_in sub s'
  end.

(** The constants are the floats [312e12], [1979e12], [756e12] and [989e12]:
    whole numbers below 2^53, which a binary64 float holds exactly. *)
Definition e12 (m : Z) : Z := m * 10 ^ 12.

Definition get_peak_flops (device_name : string) : Z :=
  if str_in "A100" device_name then e12 312
  else if str_in "H100" device_name then
    if str_in "NVL" device_name then e12 1979
    else if str_in "PCIe" device_name then e12 756
    else e12 989
  else e12 312.

(** ** [Color] and [NoColor] (utils.py, lines 137-160) *)

Inductive color_name :=
  | black | red | green | yellow | blue | magenta | cyan | white | reset.

(** The character written [\033] in the source. *)
Definition ESC : Ascii.ascii := Ascii.ascii_of_nat 27.

Definition Color (c : color_name) : string :=
  match c with
  | black => String ESC "[30m"
  | red => String ESC "[31m"
  | green => String ESC "[32m"
  | yellow => String ESC "[33m"
  | blue => String ESC "[34m"
  | magenta => String ESC "[35m"
  | cyan => String ESC "[36m"
  | white => String ESC "[37m"
  | reset => String ESC "[39m"
  end.

Definition NoColor (c : color_name) : string :=
  match c with
  | black => ""
  | red => ""
  | green => ""
  | yellow => ""
  | blue => ""
  | magenta => ""
  | cyan => ""
  | white => ""
  | reset => ""
  end.

Global Instance color_name_eq_dec : EqDecision color_name.
Proof. solve_decision. Defined.

Definition color_names : list color_name :=
  [black; red; green; yellow; blue; magenta; cyan; white; reset].

(** ** [dist_max] and [dist_mean] (utils.py, lines 16-23) *)

Inductive device := Cpu | Cuda.

(** A 0-dimensional tensor: the number it holds and where it lives. *)
Record Tensor (scalar : Type) := MkTensor { item : scalar; dev : device }.
Arguments MkTensor {scalar} item dev.
Arguments item {scalar} t.
Arguments dev {scalar} t.

(** What a Python caller can get back: a plain number or a tensor. *)
Inductive pyobj (scalar : Type) :=
  | PyNum (x : scalar)
  | PyTensor (t : Tensor scalar).
Arguments PyNum {scalar} x.
Arguments PyTensor {scalar} t.

Definition torch_tensor {scalar} (x : scalar) : Tensor scalar := MkTensor x Cpu.
Definition cuda {scalar} (t : Tensor scalar) : Tensor scalar := MkTensor (item t) Cuda.

(** [c10d.ReduceOp.MAX.name] and [c10d.ReduceOp.AVG.name] *)
Definition ReduceOp_MAX_name := "MAX".
Definition ReduceOp_AVG_name := "AVG".

Section Reduction.
Context {scalar : Type}.
(** [funcol.all_reduce(tensor, reduceOp=..., group=...)] of the runtime:
    it returns a tensor. *)
Variable all_reduce : Tensor scalar → string → DeviceMesh → Tensor scalar.

Definition dist_max (x : scalar) (mesh : DeviceMesh) : pyobj scalar :=
  let tensor := cuda (torch_tensor x) in
  PyTensor (all_reduce tensor ReduceOp_MAX_name mesh).

Definition dist_mean (x : scalar) (mesh : DeviceMesh) : pyobj scalar :=
  let tensor := cuda (torch_tensor x) in
  PyTensor (all_reduce tensor ReduceOp_AVG_name mesh).
End Reduction.

(** A runtime with one participant: the reduction of one contribution is
    that contribution. *)
Definition all_reduce_alone (t : Tensor Z) (op : string) (group : DeviceMesh)
  : Tensor Z := t.

(** ** Specification-side notions *)

(** [sub] occurs in [s] as a contiguous run of characters. *)
Definition substring_of (sub s : string) : Prop :=
  ∃ pre post, s = pre +:+ sub +:+ post.

(** The sum of the element counts of all the parameters. *)
Fixpoint total_numel (ps : list nn_Parameter) : Z :=
  match ps with
  | [] => 0
  | p :: ps' => numel p + total_numel ps'
  end.

(** The sum of the element counts of exactly the trainable parameters. *)
Fixpoint trainable_numel (ps : list nn_Parameter) : Z :=
  match ps with
  | [] => 0
  | p :: ps' =>
      if requires_grad p then numel p + trainable_numel ps'
      else trainable_numel ps'
  end.

(** The events of a history that are not log lines. *)
Definition is_log (e : event) : bool :=
  match e with
  | LogWarning _ | LogInfo _ => true
  | _ => false
  end.

Definition effects (es : list event) : list event :=
  filter (λ e, is_log e = false) es.

(** What one call of [_warn_overwrite_env k v] adds to the history when the
    environment is [E]: the warning, if [k] is set, then the write. *)
Definition guarded_write (E : gmap string string) (k v : string) : list event :=
  match E !! k with
  | Some old => [LogWarning (overwrite_msg k old v); EnvWrite k v]
  | None => [EnvWrite k v]
  end.

(** Every write in [es] of a variable outside [skip] that [E] already sets
    comes right after the warning that names the old and the new value. *)
Definition writes_warned (skip : list string) (E : gmap string string)
    (es : list event) : Prop :=
  ∀ pre k v post old,
    es = (pre ++ EnvWrite k v :: post)%list →
    k ∉ skip →
    E !! k = Some old →
    ∃ pre', pre = (pre' ++ [LogWarning (overwrite_msg k old v)])%list.

(** The history one call of [init_distributed] is expected to add when the
    environment is [E] at the start. *)
Definition init_trace (E : gmap string string) (job_config : JobConfig)
  : list event :=
  let n := trace_buf_size (comm job_config) in
  let dump_dir := dump_folder (job job_config) +:+ "/comm_trace" in
  (guarded_write E ASYNC_ERROR_HANDLING SKIP_CLEANUP ++
   guarded_write E TRACE_BUFFER_SIZE (str_int n) ++
   (if 0 <? n then
      guarded_write E DUMP_ON_TIMEOUT "1" ++
      [Makedirs dump_dir] ++
      guarded_write E TRACE_FILE (dump_dir +:+ "/rank_")
    else []) ++
   [InitProcessGroup "nccl" (Timedelta (init_timeout_seconds (comm job_config)));
    EnvWrite AVOID_RECORD_STREAMS "1"])%list.

(** ** Further specification-side notions *)

(** The sum of the element counts of exactly the frozen parameters. *)
Fixpoint frozen_numel (ps : list nn_Parameter) : Z :=
  match ps with
  | [] => 0
  | p :: ps' =>
      if requires_grad p then frozen_numel ps'
      else numel p + frozen_numel ps'
  end.

Global Instance timedelta_eq_dec : EqDecision timedelta.
Proof. solve_decision. Defined.

Global Instance ProcessGroup_eq_dec : EqDecision ProcessGroup.
Proof. solve_decision. Defined.

Global Instance event_eq_dec : EqDecision event.
Proof. solve_decision. Defined.

(** The environment obtained from [E] by the writes of a history. *)
Definition apply_event (E : gmap string string) (e : event)
  : gmap string string :=
  match e with
  | EnvWrite k v => <[k := v]> E
  | _ => E
  end.

Definition replay (E : gmap string string) (es : list event)
  : gmap string string := foldl apply_event E es.

(** [_set_pg_timeout(timeout, None)] acts on the default group of the
    runtime; on a 1-D mesh over all the ranks that is the very group of the
    mesh.  [default_group] is the group the runtime resolves [None] to. *)
Definition resolve_group (default_group : ProcessGroup)
    (g : option ProcessGroup) : ProcessGroup :=
  match g with
  | Some g' => g'
  | None => default_group
  end.

(** The timeout a history leaves on the group [g]: the one of the last
    change that reached [g], [acc] when the history does not change it. *)
Definition pg_timeout_from (default_group : ProcessGroup)
    (acc : option timedelta) (es : list event) (g : ProcessGroup)
  : option timedelta :=
  foldl (λ acc e,
           match e with
           | SetPgTimeout t g' =>
               if decide (resolve_group default_group g' = g) then Some t
               else acc
           | _ => acc
           end) acc es.

Definition pg_timeout (default_group : ProcessGroup) (es : list event)
    (g : ProcessGroup) : option timedelta :=
  pg_timeout_from default_group None es g.

Definition is_set_pg_timeout (e : event) : bool :=
  match e with
  | SetPgTimeout _ _ => true
  | _ => false
  end.

Definition is_init_process_group (e : event) : bool :=
  match e with
  | InitProcessGroup _ _ => true
  | _ => false
  end.

(** What [init_distributed] adds to the history before it starts the process
    group. *)
Definition init_guards (E : gmap string string) (job_config : JobConfig)
  : list event :=
  let n := trace_buf_size (comm job_config) in
  let dump_dir := dump_folder (job job_config) +:+ "/comm_trace" in
  (guarded_write E ASYNC_ERROR_HANDLING SKIP_CLEANUP ++
   guarded_write E TRACE_BUFFER_SIZE (str_int n) ++
   (if 0 <? n then
      guarded_write E DUMP_ON_TIMEOUT "1" ++
      [Makedirs dump_dir] ++
      guarded_write E TRACE_FILE (dump_dir +:+ "/rank_")
    else []))%list.

(** ** The two themes as Python classes *)

(** The attribute name of a colour. *)
Definition attr_name (c : color_name) : string :=
  match c with
  | black => "black"
  | red => "red"
  | green => "green"
  | yellow => "yellow"
  | blue => "blue"
  | magenta => "magenta"
  | cyan => "cyan"
  | white => "white"
  | reset => "reset"
  end.

(** One assignment of a class body: the name, whether it carries a type
    annotation, the value. *)
Record class_stmt := ClassAttr {
  stmt_name : string;
  stmt_annotated : bool;
  stmt_value : string
}.

(** A class after [@dataclass(frozen=...)]: its attributes, the dataclass
    fields (the annotated names only) and the frozen flag. *)
Record class_obj := Class {
  cls_dict : gmap string string;
  cls_fields : list string;
  cls_frozen : bool
}.

Definition dataclass (frozen : bool) (body : list class_stmt) : class_obj :=
  {| cls_dict := foldl (λ d st, <[stmt_name st := stmt_value st]> d) ∅ body;
     cls_fields := stmt_name <$> filter (λ st, stmt_annotated st = true) body;
     cls_frozen := frozen |}.

(** The body of a theme class: nine assignments, none annotated. *)
Definition theme_body (theme : color_name → string) : list class_stmt :=
  (λ c, ClassAttr (attr_name c) false (theme c)) <$> color_names.

Definition Color_class : class_obj := dataclass true (theme_body Color).
Definition NoColor_class : class_obj := dataclass true (theme_body NoColor).

Inductive attr_error := AttributeError | FrozenInstanceError.

(** [cls.name] *)
Definition class_getattr (cls : class_obj) (name : string)
  : attr_error + string :=
  match cls_dict cls !! name with
  | Some v => inr v
  | None => inl AttributeError
  end.

(** [cls.name = v]: assignment on the class itself is the one of [type],
    which [dataclass] does not replace. *)
Definition class_setattr (cls : class_obj) (name v : string) : class_obj :=
  {| cls_dict := <[name := v]> (cls_dict cls);
     cls_fields := cls_fields cls;
     cls_frozen := cls_frozen cls |}.

(** An instance made by [cls()]: its class and its own attributes. *)
Record instance := Instance {
  inst_class : class_obj;
  inst_dict : gmap string string
}.

Definition construct (cls : class_obj) : instance :=
  {| inst_class := cls; inst_dict := ∅ |}.

(** [obj.name = v] on an instance of exactly the class: the [__setattr__] a
    frozen dataclass installs raises for every name. *)
Definition instance_setattr (obj : instance) (name v : string)
  : attr_error + instance :=
  if cls_frozen (inst_class obj) then inl FrozenInstanceError
  else inr {| inst_class := inst_class obj;
              inst_dict := <[name := v]> (inst_dict obj) |}.

(** [obj.name]: the instance's own attributes, then those of the class. *)
Definition instance_getattr (obj : instance) (name : string)
  : attr_error + string :=
  match inst_dict obj !! name with
  | Some v => inr v
  | None => class_getattr (inst_class obj) name
  end.

(** ** Proof steps used more than once *)

(** Membership in a list that is written out. *)
Ltac elem_listed :=
  simpl; repeat first [apply list_elem_of_here | apply list_elem_of_further].

(** Non-membership in a list that is written out, from the constructors. *)
Ltac elem_absurd H :=
  exfalso;
  repeat (apply elem_of_cons in H as [H | H]; [discriminate H |]);
  apply elem_of_nil in H; exact H.

(** * Properties *)

(** ** Arithmetic helpers *)

Lemma py_sum_from (l : list Z) (acc : Z) : foldl Z.add acc l = acc + py_sum l.
Proof.
  unfold py_sum. revert acc.
  induction l as [|x l IH]; intros acc; simpl.
  - lia.
  - rewrite (IH (acc + x)), (IH (0 + x)). lia.
Qed.

Lemma py_sum_cons (x : Z) (l : list Z) : py_sum (x :: l) = x + py_sum l.
Proof. unfold py_sum at 1. simpl. apply py_sum_from. Qed.

Lemma get_num_params_all (model : nn_Module) :
  get_num_params model false = total_numel (parameters model).
Proof.
  unfold get_num_params. simpl.
  induction (parameters model) as [|p ps IH]; [reflexivity|].
  rewrite fmap_cons, py_sum_cons, IH. reflexivity.
Qed.

Lemma get_num_params_trainable (model : nn_Module) :
  get_num_params model true = trainable_numel (parameters model).
Proof.
  unfold get_num_params. simpl.
  induction (parameters model) as [|p ps IH]; [reflexivity|].
  rewrite filter_cons. simpl. destruct (requires_grad p) eqn:Hg.
  - rewrite decide_True by reflexivity.
    rewrite fmap_cons, py_sum_cons, IH. reflexivity.
  - rewrite decide_False by discriminate. exact IH.
Qed.

(** C8: [get_num_params] with [only_trainable=False] is the sum of the element
    counts of all the parameters, with [only_trainable=True] the sum over
    exactly the trainable ones; it is a pure function of the model (it takes
    and returns no process state); for the sizes [10, 20, 5] with the third
    parameter frozen the counts are 35 and 30. *)
Theorem get_num_params_correct :
  (∀ model : nn_Module,
     get_num_params model false = total_numel (parameters model) ∧
     get_num_params model true = trainable_numel (parameters model)) ∧
  (let model := {| parameters := [Param 10 true; Param 20 true; Param 5 false] |} in
   get_num_params model false = 35 ∧ get_num_params model true = 30).
Proof.
  split.
  - intros model. split.
    + apply get_num_params_all.
    + apply get_num_params_trainable.
  - split; reflexivity.
Qed.

(** ** FLOPs per token *)

Lemma floordiv_nonzero (a b : Z) : b ≠ 0 → floordiv a b = Ok (a / b).
Proof.
  intros Hb. unfold floordiv.
  destruct (Z.eqb_spec b 0) as [->|_]; [contradiction | reflexivity].
Qed.

Lemma floordiv_zero (a : Z) : floordiv a 0 = Raise ZeroDivisionError.
Proof. reflexivity. Qed.

Lemma get_num_flop_per_token_nonzero (num_params : Z) (cfg : ModelArgs) (t : Z) :
  n_heads cfg ≠ 0 →
  get_num_flop_per_token num_params cfg t =
    Ok (6 * num_params
        + 12 * n_layers cfg * n_heads cfg * (dim cfg / n_heads cfg) * t).
Proof.
  intros Hh. unfold get_num_flop_per_token.
  rewrite floordiv_nonzero by exact Hh. reflexivity.
Qed.

(** C6: with a positive head count [h], [get_num_flop_per_token] returns
    exactly [6*num_params + 12*l*h*(d // h)*t]; on the inputs 1000, (l=2, h=4,
    d=16) and 128 it returns [6*1000 + 12*2*4*4*128]. *)
Theorem get_num_flop_per_token_formula
    (num_params l h d t : Z) (Hh : 0 < h) :
  get_num_flop_per_token num_params {| n_layers := l; n_heads := h; dim := d |} t
    = Ok (6 * num_params + 12 * l * h * (d / h) * t) ∧
  get_num_flop_per_token 1000 {| n_layers := 2; n_heads := 4; dim := 16 |} 128
    = Ok (6 * 1000 + 12 * 2 * 4 * 4 * 128).
Proof.
  split.
  - rewrite get_num_flop_per_token_nonzero by (simpl; lia). reflexivity.
  - reflexivity.
Qed.

Lemma get_num_flop_per_token_formula_witness :
  0 < 8 ∧
  get_num_flop_per_token 7 {| n_layers := 3; n_heads := 8; dim := 100 |} 5
    = Ok (6 * 7 + 12 * 3 * 8 * (100 / 8) * 5).
Proof.
  assert (H : 0 < 8) by lia.
  split; [exact H |].
  exact (proj1 (get_num_flop_per_token_formula 7 3 8 100 5 H)).
Defined.

(** C10: the head dimension is the floor division [dim // n_heads].  For a
    head count (a number that is never negative) the function returns a value
    exactly when [n_heads > 0]: at [n_heads = 0] the division raises
    [ZeroDivisionError].  For [n_heads > 0] the head dimension [q] used by the
    formula is the rounded-down quotient, [n_heads*q <= dim < n_heads*q +
    n_heads], and it is strictly below the exact quotient whenever [dim] is not
    a multiple of [n_heads]. *)
Theorem get_num_flop_per_token_floor_division
    (num_params : Z) (cfg : ModelArgs) (t : Z) :
  (n_heads cfg = 0 →
     get_num_flop_per_token num_params cfg t = Raise ZeroDivisionError) ∧
  (0 ≤ n_heads cfg →
     ((∃ v, get_num_flop_per_token num_params cfg t = Ok v) ↔ 0 < n_heads cfg)) ∧
  (0 < n_heads cfg →
     ∃ q, get_num_flop_per_token num_params cfg t
            = Ok (6 * num_params + 12 * n_layers cfg * n_heads cfg * q * t) ∧
          n_heads cfg * q ≤ dim cfg < n_heads cfg * q + n_heads cfg ∧
          (dim cfg mod n_heads cfg ≠ 0 → n_heads cfg * q < dim cfg)).
Proof.
  destruct cfg as [l h d]. simpl. repeat split.
  - intros ->. reflexivity.
  - intros [v Hv].
    assert (h ≠ 0) as Hne; [| lia].
    intros ->. discriminate Hv.
  - intros Hpos. eexists.
    apply get_num_flop_per_token_nonzero. simpl. lia.
  - intros Hpos. exists (d / h). split; [| split].
    + apply get_num_flop_per_token_nonzero. simpl. lia.
    + pose proof (Z.div_mod d h ltac:(lia)) as Hdm.
      pose proof (Z.mod_pos_bound d h Hpos) as Hb. lia.
    + intros Hrem.
      pose proof (Z.div_mod d h ltac:(lia)) as Hdm.
      pose proof (Z.mod_pos_bound d h Hpos) as Hb. lia.
Qed.

Lemma get_num_flop_per_token_floor_division_witness :
  (∃ q, get_num_flop_per_token 7 {| n_layers := 3; n_heads := 8; dim := 100 |} 5
          = Ok (6 * 7 + 12 * 3 * 8 * q * 5) ∧
        8 * q ≤ 100 < 8 * q + 8 ∧ (100 mod 8 ≠ 0 → 8 * q < 100)) ∧
  get_num_flop_per_token 7 {| n_layers := 3; n_heads := 0; dim := 100 |} 5
    = Raise ZeroDivisionError.
Proof.
  pose (cfg := {| n_layers := 3; n_heads := 8; dim := 100 |}).
  pose (cfg0 := {| n_layers := 3; n_heads := 0; dim := 100 |}).
  split.
  - apply (proj2 (proj2 (get_num_flop_per_token_floor_division 7 cfg 5))).
    simpl. lia.
  - apply (proj1 (get_num_flop_per_token_floor_division 7 cfg0 5)).
    reflexivity.
Defined.

(** ** Colour themes *)

(** The two tables as they are defined: [NoColor] is empty everywhere,
    every [Color] code is non-empty and starts with ESC (code 27), and the
    names are exactly nine. *)
Lemma color_tables :
  (∀ c : color_name,
     NoColor c = "" ∧
     Color c ≠ "" ∧
     ∃ rest, Color c = String ESC rest) ∧
  Ascii.nat_of_ascii ESC = 27%nat ∧
  (∀ c : color_name, c ∈ color_names) ∧
  NoDup color_names ∧
  length color_names = 9%nat.
Proof.
  split; [| split; [| split; [| split]]].
  - intros c. destruct c; (split; [reflexivity | split; [discriminate | eexists; reflexivity]]).
  - reflexivity.
  - intros c. destruct c; compute_done.
  - compute_done.
  - reflexivity.
Qed.

(** C9 against the code: as defined, each of the nine names gives the empty
    string in [NoColor] and a non-empty string starting with ESC (0x1B) in
    [Color]; but the mappings are not immutable.  The nine values are class
    attributes without annotation, so the dataclasses have no fields, and
    [frozen=True] guards assignment through an instance only: an assignment on
    the class itself goes through, and once the empty string is assigned to
    [Color.red] the [Color] theme gives the empty string for [red]. *)
Theorem color_classes_not_immutable :
  (∀ c : color_name,
     class_getattr NoColor_class (attr_name c) = inr "" ∧
     class_getattr Color_class (attr_name c) = inr (Color c) ∧
     Color c ≠ "" ∧
     ∃ rest, Color c = String ESC rest) ∧
  Ascii.nat_of_ascii ESC = 27%nat ∧
  (∀ name, is_Some (cls_dict Color_class !! name)
           ↔ ∃ c, name = attr_name c) ∧
  (∀ name, is_Some (cls_dict NoColor_class !! name)
           ↔ ∃ c, name = attr_name c) ∧
  length color_names = 9%nat ∧
  NoDup (attr_name <$> color_names) ∧
  cls_fields Color_class = [] ∧
  cls_fields NoColor_class = [] ∧
  (∀ name v,
     instance_setattr (construct Color_class) name v = inl FrozenInstanceError ∧
     instance_setattr (construct NoColor_class) name v = inl FrozenInstanceError) ∧
  (∀ cls name v, class_getattr (class_setattr cls name v) name = inr v) ∧
  class_getattr Color_class "red" = inr (String ESC "[31m") ∧
  class_getattr (class_setattr Color_class "red" "") "red" = inr "" ∧
  instance_getattr (construct (class_setattr Color_class "red" "")) "red" = inr "" ∧
  class_getattr (class_setattr NoColor_class "red" "x") "red" = inr "x".
Proof.
  assert (Hdom : ∀ theme name,
            is_Some (cls_dict (dataclass true (theme_body theme)) !! name)
            ↔ ∃ c, name = attr_name c).
  { intros theme name. unfold dataclass, theme_body, color_names. simpl. split.
    - intros [v Hv].
      repeat (rewrite lookup_insert in Hv; case_decide as Hk;
              [subst name;
               first [ by exists black | by exists red | by exists green
                     | by exists yellow | by exists blue | by exists magenta
                     | by exists cyan | by exists white | by exists reset ]
              | clear Hk]).
      rewrite lookup_empty in Hv. discriminate Hv.
    - intros [c ->].
      destruct c; simpl;
        repeat first [ rewrite lookup_insert_eq; eauto; fail
                     | rewrite lookup_insert_ne by discriminate ]. }
  assert (Hget : ∀ theme c,
            class_getattr (dataclass true (theme_body theme)) (attr_name c)
            = inr (theme c)).
  { intros theme c. unfold class_getattr, dataclass, theme_body, color_names.
    simpl.
    destruct c; simpl;
      repeat first [ rewrite lookup_insert_eq; reflexivity
                   | rewrite lookup_insert_ne by discriminate ]. }
  assert (Hset : ∀ cls name v,
            class_getattr (class_setattr cls name v) name = inr v).
  { intros cls name v. unfold class_getattr, class_setattr. simpl.
    rewrite lookup_insert_eq. reflexivity. }
  split.
  { intros c. split; [| split; [| split]].
    - unfold NoColor_class. rewrite Hget. destruct c; reflexivity.
    - apply Hget.
    - destruct c; discriminate.
    - destruct c; eexists; reflexivity. }
  split; [reflexivity |].
  split; [apply Hdom |].
  split; [apply Hdom |].
  split; [reflexivity |].
  split; [compute_done |].
  split; [reflexivity |].
  split; [reflexivity |].
  split; [intros name v; split; reflexivity |].
  split; [exact Hset |].
  split; [apply (Hget Color red) |].
  split; [apply Hset |].
  split; [| apply Hset].
  unfold instance_getattr, construct. simpl. rewrite lookup_empty.
  apply Hset.
Qed.

(** ** Substring test and the peak-FLOPs table *)

Lemma starts_with_spec (p s : string) :
  starts_with p s = true ↔ ∃ post, s = p +:+ post.
Proof.
  revert s. induction p as [|a p IH]; intros s; simpl.
  - split; [intros _; exists s; reflexivity | destruct s; reflexivity].
  - destruct s as [|b s].
    + split; [discriminate | intros [post Hp]; discriminate Hp].
    + destruct (Ascii.eqb_spec a b) as [->|Hab].
      * rewrite IH. split; intros [post Hp]; exists post.
        -- rewrite Hp. reflexivity.
        -- injection Hp as Hp. exact Hp.
      * split; [discriminate |].
        intros [post Hp]. injection Hp as Hb _. congruence.
Qed.

Lemma str_in_spec (sub s : string) :
  str_in sub s = true ↔ substring_of sub s.
Proof.
  unfold substring_of. induction s as [|a s IH].
  - simpl. rewrite orb_false_r, starts_with_spec. split.
    + intros [post Hp]. exists "", post. exact Hp.
    + intros [pre [post Hp]]. destruct pre; [| discriminate Hp].
      exists post. exact Hp.
  - change (str_in sub (String a s))
      with (starts_with sub (String a s) || str_in sub s).
    rewrite orb_true_iff, starts_with_spec, IH. split.
    + intros [[post Hp] | [pre [post Hp]]].
      * exists "", post. exact Hp.
      * exists (String a pre), post. simpl. rewrite Hp. reflexivity.
    + intros [pre [post Hp]]. destruct pre as [|b pre].
      * left. exists post. exact Hp.
      * right. injection Hp as _ Hp. exists pre, post. exact Hp.
Qed.

Lemma str_in_false (sub s : string) :
  str_in sub s = false ↔ ¬ substring_of sub s.
Proof.
  rewrite <- str_in_spec. destruct (str_in sub s); split; congruence.
Qed.

(** C7: [get_peak_flops] is total and selects by substring, "A100" first:
    312e12 for a name containing "A100"; otherwise, for a name containing
    "H100", 1979e12 if it contains "NVL", else 756e12 if it contains "PCIe",
    else 989e12; and 312e12, with no error, for every other name. *)
Theorem get_peak_flops_table (device_name : string) :
  (substring_of "A100" device_name → get_peak_flops device_name = 312 * 10 ^ 12) ∧
  (¬ substring_of "A100" device_name → substring_of "H100" device_name →
   substring_of "NVL" device_name → get_peak_flops device_name = 1979 * 10 ^ 12) ∧
  (¬ substring_of "A100" device_name → substring_of "H100" device_name →
   ¬ substring_of "NVL" device_name → substring_of "PCIe" device_name →
   get_peak_flops device_name = 756 * 10 ^ 12) ∧
  (¬ substring_of "A100" device_name → substring_of "H100" device_name →
   ¬ substring_of "NVL" device_name → ¬ substring_of "PCIe" device_name →
   get_peak_flops device_name = 989 * 10 ^ 12) ∧
  (¬ substring_of "A100" device_name → ¬ substring_of "H100" device_name →
   get_peak_flops device_name = 312 * 10 ^ 12) ∧
  get_peak_flops device_name
    ∈ [312 * 10 ^ 12; 1979 * 10 ^ 12; 756 * 10 ^ 12; 989 * 10 ^ 12] ∧
  get_peak_flops "A100" = 312 * 10 ^ 12 ∧
  get_peak_flops "H100 SXM" = 989 * 10 ^ 12 ∧
  get_peak_flops "H100 NVL" = 1979 * 10 ^ 12 ∧
  get_peak_flops "H100 PCIe" = 756 * 10 ^ 12 ∧
  get_peak_flops "unknown-device" = 312 * 10 ^ 12.
Proof.
  rewrite <- !str_in_false, <- !str_in_spec. unfold get_peak_flops, e12.
  repeat split; try reflexivity.
  - intros ->. reflexivity.
  - intros -> -> ->. reflexivity.
  - intros -> -> -> ->. reflexivity.
  - intros -> -> -> ->. reflexivity.
  - intros -> ->. reflexivity.
  - destruct (str_in "A100" device_name); [set_solver |].
    destruct (str_in "H100" device_name); [| set_solver].
    destruct (str_in "NVL" device_name); [set_solver |].
    destruct (str_in "PCIe" device_name); set_solver.
Qed.

Lemma get_peak_flops_table_witness :
  get_peak_flops "NVIDIA A100-SXM4-80GB" = 312 * 10 ^ 12 ∧
  get_peak_flops "NVIDIA H100 NVL" = 1979 * 10 ^ 12 ∧
  get_peak_flops "NVIDIA H100 PCIe" = 756 * 10 ^ 12 ∧
  get_peak_flops "NVIDIA H100 80GB HBM3" = 989 * 10 ^ 12 ∧
  get_peak_flops "Tesla V100" = 312 * 10 ^ 12.
Proof.
  split; [| split; [| split; [| split]]].
  - apply (proj1 (get_peak_flops_table "NVIDIA A100-SXM4-80GB")).
    apply str_in_spec. reflexivity.
  - apply (proj1 (proj2 (get_peak_flops_table "NVIDIA H100 NVL")));
      [apply str_in_false | apply str_in_spec | apply str_in_spec]; reflexivity.
  - apply (proj1 (proj2 (proj2 (get_peak_flops_table "NVIDIA H100 PCIe"))));
      [apply str_in_false | apply str_in_spec | apply str_in_false
      | apply str_in_spec]; reflexivity.
  - apply (proj1 (proj2 (proj2 (proj2 (get_peak_flops_table "NVIDIA H100 80GB HBM3")))));
      [apply str_in_false | apply str_in_spec | apply str_in_false
      | apply str_in_false]; reflexivity.
  - apply (proj1 (proj2 (proj2 (proj2 (proj2 (get_peak_flops_table "Tesla V100"))))));
      apply str_in_false; reflexivity.
Defined.

(** ** Running the helpers *)

Lemma emitted_app {A} (m : M A) (w : world) (es : list event) :
  history (exec m w) = (history w ++ es)%list → emitted m w = es.
Proof. intros H. unfold emitted. rewrite H. apply drop_app_length. Qed.

Lemma warn_overwrite_env_run (env val : string) (w : world) :
  _warn_overwrite_env env val w =
    (tt, World (<[env := val]> (os_environ w))
               (history w ++ guarded_write (os_environ w) env val)).
Proof.
  unfold _warn_overwrite_env, guarded_write, m_bind, environ_get.
  destruct (os_environ w !! env) as [old|]; simpl.
  - unfold environ_setitem. simpl. rewrite <- List.app_assoc. reflexivity.
  - reflexivity.
Qed.

Lemma warn_overwrite_env_emitted (env val : string) (w : world) :
  emitted (_warn_overwrite_env env val) w = guarded_write (os_environ w) env val.
Proof.
  apply emitted_app. unfold exec. rewrite warn_overwrite_env_run. reflexivity.
Qed.

Lemma warn_overwrite_env_environ (env val : string) (w : world) :
  os_environ (exec (_warn_overwrite_env env val) w) = <[env := val]> (os_environ w).
Proof. unfold exec. rewrite warn_overwrite_env_run. reflexivity. Qed.

Lemma string_append_assoc (a b c : string) : (a +:+ b) +:+ c = a +:+ (b +:+ c).
Proof.
  induction a as [|x a IH]; [reflexivity |].
  change (String x ((a +:+ b) +:+ c) = String x (a +:+ b +:+ c)).
  rewrite IH. reflexivity.
Qed.

Lemma overwrite_msg_names_old (env old val : string) :
  substring_of old (overwrite_msg env old val).
Proof.
  exists ("ENV[" +:+ env +:+ "] = "),
         (" will be overridden to " +:+ val +:+ " based on job config").
  unfold overwrite_msg. rewrite !string_append_assoc. reflexivity.
Qed.

Lemma overwrite_msg_names_new (env old val : string) :
  substring_of val (overwrite_msg env old val).
Proof.
  exists ("ENV[" +:+ env +:+ "] = " +:+ old +:+ " will be overridden to "),
         " based on job config".
  unfold overwrite_msg. rewrite !string_append_assoc. reflexivity.
Qed.

(** C1, as the code has it: [_warn_overwrite_env env val] logs a warning
    exactly when [env] is already set, whatever its value (also when the old
    value equals [val]); the warning names the old and the new value and comes
    before the write; in every case [env] maps to [val] afterwards and no other
    variable changes; a second call with another value logs exactly one
    warning, for that overwrite, and leaves the last value. *)
Theorem warn_overwrite_env_contract (env val : string) (w : world) :
  let w' := exec (_warn_overwrite_env env val) w in
  (emitted (_warn_overwrite_env env val) w =
     match os_environ w !! env with
     | Some old => [LogWarning (overwrite_msg env old val); EnvWrite env val]
     | None => [EnvWrite env val]
     end) ∧
  (warnings (emitted (_warn_overwrite_env env val) w) ≠ []
     ↔ env ∈ dom (os_environ w)) ∧
  (∀ old, substring_of old (overwrite_msg env old val) ∧
          substring_of val (overwrite_msg env old val)) ∧
  os_environ w' !! env = Some val ∧
  (∀ k, k ≠ env → os_environ w' !! k = os_environ w !! k) ∧
  (∀ val2,
     warnings (emitted (_warn_overwrite_env env val2) w')
       = [overwrite_msg env val val2] ∧
     os_environ (exec (_warn_overwrite_env env val2) w') !! env = Some val2).
Proof.
  cbv zeta. rewrite !warn_overwrite_env_emitted.
  split; [| split; [| split; [| split; [| split]]]].
  - reflexivity.
  - rewrite elem_of_dom. unfold guarded_write.
    destruct (os_environ w !! env) as [old|]; simpl.
    + split; [intros _; eexists; reflexivity | discriminate].
    + split; [intros H; contradiction H; reflexivity | intros [x Hx]; discriminate Hx].
  - intros old. split.
    + apply overwrite_msg_names_old.
    + apply overwrite_msg_names_new.
  - rewrite warn_overwrite_env_environ. apply lookup_insert_eq.
  - intros k Hk. rewrite warn_overwrite_env_environ.
    apply lookup_insert_ne. congruence.
  - intros val2.
    rewrite warn_overwrite_env_emitted, !warn_overwrite_env_environ.
    unfold guarded_write. rewrite !lookup_insert_eq. split; reflexivity.
Qed.

(** C1 as stated fails where the old value equals the new one: the helper does
    not compare values, so setting a variable to the value it already has is
    warned about as well. *)
Lemma warn_overwrite_env_same_value_warns :
  let w := World {[ DUMP_ON_TIMEOUT := "1" ]} [] in
  os_environ w !! DUMP_ON_TIMEOUT = Some "1" ∧
  warnings (emitted (_warn_overwrite_env DUMP_ON_TIMEOUT "1") w)
    = [overwrite_msg DUMP_ON_TIMEOUT "1" "1"] ∧
  ¬ (warnings (emitted (_warn_overwrite_env DUMP_ON_TIMEOUT "1") w) ≠ []
       ↔ ∃ old, os_environ w !! DUMP_ON_TIMEOUT = Some old ∧ old ≠ "1").
Proof.
  cbv zeta. rewrite warn_overwrite_env_emitted. unfold guarded_write. simpl.
  rewrite lookup_singleton_eq. simpl.
  split; [reflexivity | split; [reflexivity |]].
  intros [Hwarn _].
  destruct Hwarn as [old [Hold Hne]]; [discriminate |].
  congruence.
Qed.

(** ** Log lines and effects *)

Lemma effects_app (es1 es2 : list event) :
  effects (es1 ++ es2) = (effects es1 ++ effects es2)%list.
Proof. apply filter_app. Qed.

Lemma effects_guarded_write (E : gmap string string) (k v : string) :
  effects (guarded_write E k v) = [EnvWrite k v].
Proof. unfold guarded_write. destruct (E !! k); reflexivity. Qed.

Lemma effects_set_pg_timeout (t : timedelta) (gs : list (option ProcessGroup)) :
  effects (SetPgTimeout t <$> gs) = SetPgTimeout t <$> gs.
Proof.
  induction gs as [|g gs IH]; [reflexivity |].
  rewrite fmap_cons. unfold effects in *.
  rewrite filter_cons_True by reflexivity. rewrite IH. reflexivity.
Qed.

(** ** Timeout synchronisation *)

Lemma get_group_shape (m : DeviceMesh) :
  (∃ g, get_group m = Single g) ↔ ndim m = 1%nat.
Proof.
  unfold get_group, ndim. destruct (dim_groups m) as [|g [|g' gs]]; simpl.
  - split; [intros [g Hg]; discriminate Hg | discriminate].
  - split; [reflexivity | intros _; exists g; reflexivity].
  - split; [intros [g0 Hg]; discriminate Hg | discriminate].
Qed.

Lemma mesh_group_list_all (m : DeviceMesh) :
  mesh_group_list m = Some <$> dim_groups m.
Proof.
  unfold mesh_group_list, get_group, ndim.
  destruct (dim_groups m) as [|g [|g' gs]]; reflexivity.
Qed.

Lemma for_each_set_pg_timeout (t : timedelta) (gs : list (option ProcessGroup))
    (w : world) :
  for_each (λ group, _set_pg_timeout t group) gs w =
    (tt, World (os_environ w) (history w ++ (SetPgTimeout t <$> gs))).
Proof.
  revert w. induction gs as [|g gs IH]; intros w; simpl.
  - unfold m_ret. rewrite app_nil_r. destruct w; reflexivity.
  - unfold m_bind, _set_pg_timeout, emit. simpl. rewrite IH. simpl.
    rewrite <- List.app_assoc. reflexivity.
Qed.

Lemma set_pg_timeouts_run (str_timedelta : timedelta → string)
    (t : timedelta) (mesh : DeviceMesh) (w : world) :
  set_pg_timeouts str_timedelta t mesh w =
    (tt, World (os_environ w)
           (history w ++
            [LogInfo ("Synchronizing and adjusting timeout for all ProcessGroups to "
                      +:+ str_timedelta t); Barrier; CudaSynchronize] ++
            (SetPgTimeout t <$> ((Some <$> dim_groups mesh) ++ [None])))%list).
Proof.
  unfold set_pg_timeouts, m_bind, logger_info, barrier, cuda_synchronize, emit.
  simpl. rewrite for_each_set_pg_timeout, mesh_group_list_all. simpl.
  rewrite <- !List.app_assoc. reflexivity.
Qed.

(** C4: [set_pg_timeouts] first passes the distributed barrier, then
    synchronises the device, and only then changes timeouts (the info line is
    logged before the barrier): every timeout change in its history has the
    barrier and, after it, the device synchronisation before it.  The timeout
    is then set on every group of the mesh, in order (the one group of a 1-D
    mesh), and last on the default group [None]; nothing else is changed. *)
Theorem set_pg_timeouts_order (str_timedelta : timedelta → string)
    (timeout : timedelta) (world_mesh : DeviceMesh) (w : world) :
  let es := emitted (set_pg_timeouts str_timedelta timeout world_mesh) w in
  effects es =
    ([Barrier; CudaSynchronize] ++
     (SetPgTimeout timeout <$> ((Some <$> dim_groups world_mesh) ++ [None])))%list ∧
  (∀ pre t g post,
     es = (pre ++ SetPgTimeout t g :: post)%list →
     ∃ a b c, pre = (a ++ Barrier :: b ++ CudaSynchronize :: c)%list ∧
              (∀ t' g', (SetPgTimeout t' g' ∉ a) ∧ (SetPgTimeout t' g' ∉ b))) ∧
  (∀ g, g ∈ dim_groups world_mesh → SetPgTimeout timeout (Some g) ∈ es) ∧
  SetPgTimeout timeout None ∈ es ∧
  (∀ t g, SetPgTimeout t g ∈ es →
     t = timeout ∧ (g = None ∨ ∃ g', g = Some g' ∧ g' ∈ dim_groups world_mesh)) ∧
  (ndim world_mesh = 1%nat →
     ∃ g, get_group world_mesh = Single g ∧
          effects es = [Barrier; CudaSynchronize;
                        SetPgTimeout timeout (Some g); SetPgTimeout timeout None]) ∧
  os_environ (exec (set_pg_timeouts str_timedelta timeout world_mesh) w)
    = os_environ w.
Proof.
  cbv zeta.
  rewrite (emitted_app _ _ _
    ltac:(unfold exec; rewrite set_pg_timeouts_run; reflexivity)).
  split; [| split; [| split; [| split; [| split; [| split]]]]].
  - rewrite effects_app, effects_set_pg_timeout. reflexivity.
  - intros pre t g post Heq.
    destruct pre as [|e0 [|e1 [|e2 pre]]]; simpl in Heq; try discriminate Heq.
    injection Heq as <- <- <- _.
    eexists [_], [], pre. split; [reflexivity |].
    intros t' g'. split; [| apply not_elem_of_nil].
    rewrite list_elem_of_singleton. discriminate.
  - intros g Hg. rewrite !elem_of_app. right.
    apply list_elem_of_fmap. exists (Some g). split; [reflexivity |].
    apply elem_of_app. left. apply list_elem_of_fmap. eauto.
  - rewrite !elem_of_app. right.
    apply list_elem_of_fmap. exists None. split; [reflexivity |].
    apply elem_of_app. right. apply list_elem_of_singleton. reflexivity.
  - intros t g Hin. apply elem_of_app in Hin as [Hin | Hin].
    + repeat (apply elem_of_cons in Hin as [Hin | Hin]; [discriminate Hin |]).
      apply elem_of_nil in Hin. contradiction.
    + apply list_elem_of_fmap in Hin as [g0 [Heq Hin]].
      injection Heq as -> ->. split; [reflexivity |].
      apply elem_of_app in Hin as [Hin | Hin].
      * apply list_elem_of_fmap in Hin as [g' [-> Hin]]. right. eauto.
      * apply list_elem_of_singleton in Hin. left. exact Hin.
  - intros Hnd. apply get_group_shape in Hnd as [g Hg]. exists g.
    split; [exact Hg |].
    unfold get_group in Hg.
    destruct (dim_groups world_mesh) as [|g0 [|g1 gs]]; try discriminate Hg.
    injection Hg as ->. reflexivity.
  - unfold exec. rewrite set_pg_timeouts_run. reflexivity.
Qed.

Lemma set_pg_timeouts_order_witness :
  let mesh := Mesh [PG 0] in
  let w := World ∅ [] in
  ndim mesh = 1%nat ∧
  ∃ g, get_group mesh = Single g ∧
       effects (emitted (set_pg_timeouts (λ _, "0:01:40") (Timedelta 100) mesh) w)
         = [Barrier; CudaSynchronize;
            SetPgTimeout (Timedelta 100) (Some g);
            SetPgTimeout (Timedelta 100) None].
Proof.
  cbv zeta. split; [reflexivity |].
  apply (set_pg_timeouts_order (λ _, "0:01:40") (Timedelta 100)
           (Mesh [PG 0]) (World ∅ [])).
  reflexivity.
Defined.

(** ** Distributed initialisation *)

Lemma str_int_examples :
  str_int 20000 = "20000" ∧ str_int 0 = "0" ∧ str_int (-7) = "-7".
Proof. repeat split; reflexivity. Qed.

Lemma guarded_write_insert_ne (E : gmap string string) (k' v' k v : string) :
  k' ≠ k → guarded_write (<[k' := v']> E) k v = guarded_write E k v.
Proof.
  intros Hne. unfold guarded_write. rewrite lookup_insert_ne by exact Hne.
  reflexivity.
Qed.

Lemma init_distributed_history (job_config : JobConfig) (w : world) :
  history (exec (init_distributed job_config) w)
    = (history w ++ init_trace (os_environ w) job_config)%list.
Proof.
  unfold exec, init_distributed, init_trace, m_bind.
  rewrite warn_overwrite_env_run. rewrite warn_overwrite_env_run. simpl.
  destruct (0 <? trace_buf_size (comm job_config)).
  - unfold m_bind. rewrite warn_overwrite_env_run.
    unfold makedirs, emit. simpl. rewrite warn_overwrite_env_run.
    unfold init_process_group, emit, environ_setitem. simpl.
    rewrite !guarded_write_insert_ne by discriminate.
    rewrite <- !List.app_assoc. reflexivity.
  - unfold m_ret, init_process_group, emit, environ_setitem. simpl.
    rewrite !guarded_write_insert_ne by discriminate.
    rewrite <- !List.app_assoc. reflexivity.
Qed.

Lemma init_distributed_emitted (job_config : JobConfig) (w : world) :
  emitted (init_distributed job_config) w = init_trace (os_environ w) job_config.
Proof. apply emitted_app, init_distributed_history. Qed.

Lemma init_distributed_environ (job_config : JobConfig) (w : world) :
  os_environ (exec (init_distributed job_config) w) =
    let n := trace_buf_size (comm job_config) in
    let dump_dir := dump_folder (job job_config) +:+ "/comm_trace" in
    let E2 := <[TRACE_BUFFER_SIZE := str_int n]>
                (<[ASYNC_ERROR_HANDLING := SKIP_CLEANUP]> (os_environ w)) in
    <[AVOID_RECORD_STREAMS := "1"]>
      (if 0 <? n then
         <[TRACE_FILE := dump_dir +:+ "/rank_"]> (<[DUMP_ON_TIMEOUT := "1"]> E2)
       else E2).
Proof.
  unfold exec, init_distributed, m_bind.
  rewrite warn_overwrite_env_run. rewrite warn_overwrite_env_run. simpl.
  destruct (0 <? trace_buf_size (comm job_config)).
  - unfold m_bind. rewrite warn_overwrite_env_run.
    unfold makedirs, emit. simpl. rewrite warn_overwrite_env_run.
    reflexivity.
  - reflexivity.
Qed.

Lemma effects_init_trace (E : gmap string string) (job_config : JobConfig) :
  effects (init_trace E job_config) =
    let n := trace_buf_size (comm job_config) in
    let dump_dir := dump_folder (job job_config) +:+ "/comm_trace" in
    ([EnvWrite ASYNC_ERROR_HANDLING SKIP_CLEANUP;
      EnvWrite TRACE_BUFFER_SIZE (str_int n)] ++
     (if 0 <? n then
        [EnvWrite DUMP_ON_TIMEOUT "1"; Makedirs dump_dir;
         EnvWrite TRACE_FILE (dump_dir +:+ "/rank_")]
      else []) ++
     [InitProcessGroup "nccl" (Timedelta (init_timeout_seconds (comm job_config)));
      EnvWrite AVOID_RECORD_STREAMS "1"])%list.
Proof.
  unfold init_trace. cbv zeta.
  rewrite !effects_app, !effects_guarded_write.
  destruct (0 <? trace_buf_size (comm job_config)).
  - rewrite !effects_app, !effects_guarded_write. reflexivity.
  - reflexivity.
Qed.

(** C5: leaving the warnings aside, [init_distributed] does, in this order:
    (1) set TORCH_NCCL_ASYNC_ERROR_HANDLING to "3"; (2) set
    TORCH_NCCL_TRACE_BUFFER_SIZE to the configured size; (3) exactly when that
    size is positive, set TORCH_NCCL_DUMP_ON_TIMEOUT to "1", create the
    directory <dump_folder>/comm_trace and set TORCH_NCCL_DEBUG_INFO_TEMP_FILE
    to <dump_folder>/comm_trace/rank_; (4) initialise the default process
    group with backend "nccl" and the configured timeout; (5) set
    TORCH_NCCL_AVOID_RECORD_STREAMS to "1".  Afterwards the environment holds
    these values. *)
Theorem init_distributed_order (job_config : JobConfig) (w : world) :
  let es := emitted (init_distributed job_config) w in
  let E' := os_environ (exec (init_distributed job_config) w) in
  let n := trace_buf_size (comm job_config) in
  let dump_dir := dump_folder (job job_config) +:+ "/comm_trace" in
  effects es =
    ([EnvWrite "TORCH_NCCL_ASYNC_ERROR_HANDLING" "3";
      EnvWrite "TORCH_NCCL_TRACE_BUFFER_SIZE" (str_int n)] ++
     (if 0 <? n then
        [EnvWrite "TORCH_NCCL_DUMP_ON_TIMEOUT" "1";
         Makedirs dump_dir;
         EnvWrite "TORCH_NCCL_DEBUG_INFO_TEMP_FILE" (dump_dir +:+ "/rank_")]
      else []) ++
     [InitProcessGroup "nccl" (Timedelta (init_timeout_seconds (comm job_config)));
      EnvWrite "TORCH_NCCL_AVOID_RECORD_STREAMS" "1"])%list ∧
  (0 < n ↔ Makedirs dump_dir ∈ es) ∧
  (0 < n ↔ ∃ v, EnvWrite "TORCH_NCCL_DUMP_ON_TIMEOUT" v ∈ es) ∧
  (0 < n ↔ ∃ v, EnvWrite "TORCH_NCCL_DEBUG_INFO_TEMP_FILE" v ∈ es) ∧
  E' !! "TORCH_NCCL_ASYNC_ERROR_HANDLING" = Some "3" ∧
  E' !! "TORCH_NCCL_TRACE_BUFFER_SIZE" = Some (str_int n) ∧
  E' !! "TORCH_NCCL_AVOID_RECORD_STREAMS" = Some "1" ∧
  E' !! "TORCH_NCCL_DUMP_ON_TIMEOUT" =
    (if 0 <? n then Some "1" else os_environ w !! "TORCH_NCCL_DUMP_ON_TIMEOUT") ∧
  E' !! "TORCH_NCCL_DEBUG_INFO_TEMP_FILE" =
    (if 0 <? n then Some (dump_dir +:+ "/rank_")
     else os_environ w !! "TORCH_NCCL_DEBUG_INFO_TEMP_FILE").
Proof.
  cbv zeta.
  assert (Hin : ∀ e, is_log e = false →
            (e ∈ emitted (init_distributed job_config) w
             ↔ e ∈ effects (init_trace (os_environ w) job_config))).
  { intros e He. rewrite init_distributed_emitted. unfold effects.
    rewrite list_elem_of_filter. tauto. }
  split; [| split; [| split; [| split]]].
  - rewrite init_distributed_emitted. apply effects_init_trace.
  - rewrite Hin by reflexivity. rewrite effects_init_trace. cbv zeta.
    destruct (Z.ltb_spec 0 (trace_buf_size (comm job_config))) as [Hn | Hn].
    + split; [intros _; elem_listed | intros _; exact Hn].
    + split; [lia |]. intros H. elem_absurd H.
  - split.
    + intros Hn. exists "1". rewrite Hin by reflexivity.
      rewrite effects_init_trace. cbv zeta.
      apply Z.ltb_lt in Hn. rewrite Hn. elem_listed.
    + intros [v H]. rewrite Hin in H by reflexivity.
      rewrite effects_init_trace in H. cbv zeta in H.
      destruct (Z.ltb_spec 0 (trace_buf_size (comm job_config))) as [Hn | Hn];
        [exact Hn | elem_absurd H].
  - split.
    + intros Hn. eexists. rewrite Hin by reflexivity.
      rewrite effects_init_trace. cbv zeta.
      apply Z.ltb_lt in Hn. rewrite Hn. elem_listed.
    + intros [v H]. rewrite Hin in H by reflexivity.
      rewrite effects_init_trace in H. cbv zeta in H.
      destruct (Z.ltb_spec 0 (trace_buf_size (comm job_config))) as [Hn | Hn];
        [exact Hn | elem_absurd H].
  - rewrite init_distributed_environ. cbv zeta.
    destruct (0 <? trace_buf_size (comm job_config));
      repeat split;
      repeat first [ apply lookup_insert_eq
                   | rewrite lookup_insert_ne by discriminate ];
      reflexivity.
Qed.

(** ** Which writes are warned about *)

Lemma writes_warned_app (skip : list string) (E : gmap string string)
    (es1 es2 : list event) :
  writes_warned skip E es1 → writes_warned skip E es2 →
  writes_warned skip E (es1 ++ es2).
Proof.
  intros H1 H2 pre k v post old Heq Hk HE.
  apply List.app_eq_app in Heq as [l [[Hes1 Hrest] | [Hpre Hes2]]].
  - destruct l as [|e l].
    + simpl in Hrest. rewrite app_nil_r in Hes1. subst pre.
      destruct (H2 [] k v post old) as [pre' Hpre']; auto.
      destruct pre'; discriminate Hpre'.
    + injection Hrest as <- _.
      exact (H1 pre k v l old Hes1 Hk HE).
  - destruct (H2 l k v post old Hes2 Hk HE) as [pre' ->].
    exists (es1 ++ pre')%list. rewrite Hpre, List.app_assoc. reflexivity.
Qed.

Lemma writes_warned_guarded_write (skip : list string) (E : gmap string string)
    (k v : string) :
  writes_warned skip E (guarded_write E k v).
Proof.
  intros pre k' v' post old Heq Hk HE. unfold guarded_write in Heq.
  destruct (E !! k) as [o|] eqn:Hlook.
  - destruct pre as [|e0 [|e1 pre]]; simpl in Heq.
    + discriminate Heq.
    + injection Heq as <- <- <- _.
      rewrite Hlook in HE. injection HE as ->. exists []. reflexivity.
    + injection Heq as _ _ Heq. destruct pre; discriminate Heq.
  - destruct pre as [|e0 pre]; simpl in Heq.
    + injection Heq as <- <- _. congruence.
    + injection Heq as _ Heq. destruct pre; discriminate Heq.
Qed.

Lemma writes_warned_no_write (skip : list string) (E : gmap string string)
    (es : list event) :
  (∀ k v, EnvWrite k v ∉ es) → writes_warned skip E es.
Proof.
  intros Hno pre k v post old Heq _ _. exfalso.
  apply (Hno k v). rewrite Heq. apply elem_of_app. right. apply list_elem_of_here.
Qed.

Lemma writes_warned_skipped (skip : list string) (E : gmap string string)
    (k v : string) :
  k ∈ skip → writes_warned skip E [EnvWrite k v].
Proof.
  intros Hk pre k' v' post old Heq Hk' _.
  destruct pre as [|e0 pre]; simpl in Heq.
  - injection Heq as <- _. contradiction.
  - injection Heq as _ Heq. destruct pre; discriminate Heq.
Qed.

Lemma writes_warned_init_trace (E : gmap string string) (job_config : JobConfig) :
  writes_warned [AVOID_RECORD_STREAMS] E (init_trace E job_config).
Proof.
  unfold init_trace. cbv zeta.
  repeat first
    [ apply writes_warned_app
    | apply writes_warned_guarded_write ].
  - destruct (0 <? trace_buf_size (comm job_config)).
    + repeat first
        [ apply writes_warned_app
        | apply writes_warned_guarded_write ].
      apply writes_warned_no_write. intros k v H. elem_absurd H.
    + apply writes_warned_no_write. intros k v H. elem_absurd H.
  - apply (writes_warned_app _ _ [_] [_]).
    + apply writes_warned_no_write. intros k v H. elem_absurd H.
    + apply writes_warned_skipped. apply list_elem_of_here.
Qed.

(** C2, as the code has it: every write of [init_distributed] to a variable
    other than TORCH_NCCL_AVOID_RECORD_STREAMS goes through
    [_warn_overwrite_env]: if the variable was set before the call, the
    warning naming its old and its new value is emitted right before the
    write.  TORCH_NCCL_AVOID_RECORD_STREAMS is assigned directly, once, as the
    last step right after the process group is initialised, with no warning
    of its own. *)
Theorem init_distributed_writes_warned (job_config : JobConfig) (w : world) :
  let es := emitted (init_distributed job_config) w in
  writes_warned ["TORCH_NCCL_AVOID_RECORD_STREAMS"] (os_environ w) es ∧
  ∃ pre,
    es = (pre ++
          [InitProcessGroup "nccl"
             (Timedelta (init_timeout_seconds (comm job_config)));
           EnvWrite "TORCH_NCCL_AVOID_RECORD_STREAMS" "1"])%list ∧
    ∀ v, EnvWrite "TORCH_NCCL_AVOID_RECORD_STREAMS" v ∉ pre.
Proof.
  cbv zeta. rewrite init_distributed_emitted. split.
  - apply writes_warned_init_trace.
  - unfold init_trace. cbv zeta. rewrite !List.app_assoc.
    eexists. split; [reflexivity |].
    intros v Hin.
    assert (He : EnvWrite "TORCH_NCCL_AVOID_RECORD_STREAMS" v ∈
                 effects ((guarded_write (os_environ w) ASYNC_ERROR_HANDLING SKIP_CLEANUP ++
                   guarded_write (os_environ w) TRACE_BUFFER_SIZE
                     (str_int (trace_buf_size (comm job_config)))) ++
                  (if 0 <? trace_buf_size (comm job_config)
                   then (guarded_write (os_environ w) DUMP_ON_TIMEOUT "1" ++
                         [Makedirs (dump_folder (job job_config) +:+ "/comm_trace")]) ++
                        guarded_write (os_environ w) TRACE_FILE
                          ((dump_folder (job job_config) +:+ "/comm_trace") +:+ "/rank_")
                   else []))%list).
    { unfold effects. apply list_elem_of_filter. split; [reflexivity | exact Hin]. }
    clear Hin. rewrite !effects_app, !effects_guarded_write in He.
    destruct (0 <? trace_buf_size (comm job_config)).
    + rewrite !effects_app, !effects_guarded_write in He. simpl in He.
      elem_absurd He.
    + simpl in He. elem_absurd He.
Qed.

Lemma init_distributed_writes_warned_witness :
  let w := World {[ ASYNC_ERROR_HANDLING := "1" ]} [] in
  let cfg := {| comm := {| trace_buf_size := 0; init_timeout_seconds := 260 |};
                job := {| dump_folder := "./outputs" |} |} in
  emitted (init_distributed cfg) w =
    [LogWarning (overwrite_msg ASYNC_ERROR_HANDLING "1" "3");
     EnvWrite ASYNC_ERROR_HANDLING "3";
     EnvWrite TRACE_BUFFER_SIZE "0";
     InitProcessGroup "nccl" (Timedelta 260);
     EnvWrite AVOID_RECORD_STREAMS "1"] ∧
  ∃ pre', [LogWarning (overwrite_msg ASYNC_ERROR_HANDLING "1" "3")]
            = (pre' ++ [LogWarning (overwrite_msg ASYNC_ERROR_HANDLING "1" "3")])%list.
Proof.
  cbv zeta.
  assert (Hes : emitted
            (init_distributed
               {| comm := {| trace_buf_size := 0; init_timeout_seconds := 260 |};
                  job := {| dump_folder := "./outputs" |} |})
            (World {[ ASYNC_ERROR_HANDLING := "1" ]} []) =
          [LogWarning (overwrite_msg ASYNC_ERROR_HANDLING "1" "3");
           EnvWrite ASYNC_ERROR_HANDLING "3";
           EnvWrite TRACE_BUFFER_SIZE "0";
           InitProcessGroup "nccl" (Timedelta 260);
           EnvWrite AVOID_RECORD_STREAMS "1"]) by (vm_compute; reflexivity).
  split; [exact Hes |].
  apply (proj1 (init_distributed_writes_warned
                  {| comm := {| trace_buf_size := 0; init_timeout_seconds := 260 |};
                     job := {| dump_folder := "./outputs" |} |}
                  (World {[ ASYNC_ERROR_HANDLING := "1" ]} []))
           [LogWarning (overwrite_msg ASYNC_ERROR_HANDLING "1" "3")]
           ASYNC_ERROR_HANDLING "3"
           [EnvWrite TRACE_BUFFER_SIZE "0";
            InitProcessGroup "nccl" (Timedelta 260);
            EnvWrite AVOID_RECORD_STREAMS "1"]
           "1").
  - exact Hes.
  - vm_compute. intros H. elem_absurd H.
  - vm_compute. reflexivity.
Defined.

(** C2 as stated fails for TORCH_NCCL_AVOID_RECORD_STREAMS: with that
    variable already set, [init_distributed] overwrites it and the history of
    the call holds no warning at all. *)
Lemma init_distributed_avoid_record_streams_unwarned :
  let w := World {[ "TORCH_NCCL_AVOID_RECORD_STREAMS" := "0" ]} [] in
  let cfg := {| comm := {| trace_buf_size := 0; init_timeout_seconds := 260 |};
                job := {| dump_folder := "./outputs" |} |} in
  os_environ w !! "TORCH_NCCL_AVOID_RECORD_STREAMS" = Some "0" ∧
  os_environ (exec (init_distributed cfg) w) !! "TORCH_NCCL_AVOID_RECORD_STREAMS"
    = Some "1" ∧
  emitted (init_distributed cfg) w =
    [EnvWrite "TORCH_NCCL_ASYNC_ERROR_HANDLING" "3";
     EnvWrite "TORCH_NCCL_TRACE_BUFFER_SIZE" "0";
     InitProcessGroup "nccl" (Timedelta 260);
     EnvWrite "TORCH_NCCL_AVOID_RECORD_STREAMS" "1"] ∧
  warnings (emitted (init_distributed cfg) w) = [] ∧
  ¬ writes_warned [] (os_environ w) (emitted (init_distributed cfg) w).
Proof.
  cbv zeta.
  assert (Hes : emitted
            (init_distributed
               {| comm := {| trace_buf_size := 0; init_timeout_seconds := 260 |};
                  job := {| dump_folder := "./outputs" |} |})
            (World {[ "TORCH_NCCL_AVOID_RECORD_STREAMS" := "0" ]} []) =
          [EnvWrite "TORCH_NCCL_ASYNC_ERROR_HANDLING" "3";
           EnvWrite "TORCH_NCCL_TRACE_BUFFER_SIZE" "0";
           InitProcessGroup "nccl" (Timedelta 260);
           EnvWrite "TORCH_NCCL_AVOID_RECORD_STREAMS" "1"])
    by (vm_compute; reflexivity).
  split; [vm_compute; reflexivity |].
  split; [vm_compute; reflexivity |].
  split; [exact Hes |].
  rewrite Hes. split; [reflexivity |].
  intros Hall.
  destruct (Hall [EnvWrite "TORCH_NCCL_ASYNC_ERROR_HANDLING" "3";
                  EnvWrite "TORCH_NCCL_TRACE_BUFFER_SIZE" "0";
                  InitProcessGroup "nccl" (Timedelta 260)]
                 "TORCH_NCCL_AVOID_RECORD_STREAMS" "1" [] "0")
    as [pre' Hpre'].
  - reflexivity.
  - apply not_elem_of_nil.
  - vm_compute. reflexivity.
  - apply (f_equal last) in Hpre'. rewrite last_snoc in Hpre'.
    discriminate Hpre'.
Qed.

(** ** Distributed reductions *)

(** C3 against the code: [dist_max] and [dist_mean] hand back what
    [funcol.all_reduce] returns for the MAX and the AVG reduction of the 0-dim
    CUDA tensor made from [x], that is a tensor, never a plain number; for
    instance with a single participant [dist_max 3] is the tensor holding 3,
    not the number 3. *)
Theorem dist_reductions_return_tensors :
  (∀ (scalar : Type)
     (all_reduce : Tensor scalar → string → DeviceMesh → Tensor scalar)
     (x : scalar) (mesh : DeviceMesh),
     dist_max all_reduce x mesh
       = PyTensor (all_reduce (MkTensor x Cuda) "MAX" mesh) ∧
     dist_mean all_reduce x mesh
       = PyTensor (all_reduce (MkTensor x Cuda) "AVG" mesh) ∧
     (∀ s, dist_max all_reduce x mesh ≠ PyNum s) ∧
     (∀ s, dist_mean all_reduce x mesh ≠ PyNum s)) ∧
  dist_max all_reduce_alone 3 (Mesh [PG 0]) = PyTensor (MkTensor 3 Cuda) ∧
  dist_max all_reduce_alone 3 (Mesh [PG 0]) ≠ PyNum 3 ∧
  dist_mean all_reduce_alone 3 (Mesh [PG 0]) = PyTensor (MkTensor 3 Cuda) ∧
  dist_mean all_reduce_alone 3 (Mesh [PG 0]) ≠ PyNum 3.
Proof.
  split; [| repeat split; discriminate].
  intros scalar all_reduce x mesh.
  repeat split; discriminate.
Qed.

(** * Further properties *)

(** ** Parameter counting *)

Lemma get_num_params_frozen (ps : list nn_Parameter) :
  total_numel ps = trainable_numel ps + frozen_numel ps.
Proof.
  induction ps as [|p ps IH]; simpl; [reflexivity |].
  destruct (requires_grad p); lia.
Qed.

Lemma total_numel_app (ps1 ps2 : list nn_Parameter) :
  total_numel (ps1 ++ ps2) = total_numel ps1 + total_numel ps2.
Proof. induction ps1 as [|p ps1 IH]; simpl; lia. Qed.

Lemma trainable_numel_app (ps1 ps2 : list nn_Parameter) :
  trainable_numel (ps1 ++ ps2) = trainable_numel ps1 + trainable_numel ps2.
Proof.
  induction ps1 as [|p ps1 IH]; simpl; [reflexivity |].
  destruct (requires_grad p); lia.
Qed.

(** X1: the count of a model whose parameters are those of two parts, one
    after the other, is the sum of the counts of the parts, with and without
    the trainable-only filter; a model without parameters counts 0. *)
Theorem get_num_params_app (ps1 ps2 : list nn_Parameter) (only_trainable : bool) :
  get_num_params {| parameters := ps1 ++ ps2 |} only_trainable =
    get_num_params {| parameters := ps1 |} only_trainable +
    get_num_params {| parameters := ps2 |} only_trainable ∧
  get_num_params {| parameters := [] |} only_trainable = 0.
Proof.
  split.
  - destruct only_trainable.
    + rewrite !get_num_params_trainable. apply trainable_numel_app.
    + rewrite !get_num_params_all. apply total_numel_app.
  - destruct only_trainable; reflexivity.
Qed.

(** X2: the counts do not depend on the order in which the model lists its
    parameters. *)
Theorem get_num_params_permutation (ps1 ps2 : list nn_Parameter)
    (only_trainable : bool) (Hperm : ps1 ≡ₚ ps2) :
  get_num_params {| parameters := ps1 |} only_trainable =
  get_num_params {| parameters := ps2 |} only_trainable.
Proof.
  destruct only_trainable.
  - rewrite !get_num_params_trainable. simpl.
    induction Hperm as [|p l l' _ IH|p q l|l l' l'' _ IH1 _ IH2]; simpl.
    + reflexivity.
    + destruct (requires_grad p); lia.
    + destruct (requires_grad p), (requires_grad q); lia.
    + lia.
  - rewrite !get_num_params_all. simpl.
    induction Hperm as [|p l l' _ IH|p q l|l l' l'' _ IH1 _ IH2]; simpl; lia.
Qed.

Lemma get_num_params_permutation_witness :
  [Param 10 true; Param 5 false] ≡ₚ [Param 5 false; Param 10 true] ∧
  get_num_params {| parameters := [Param 10 true; Param 5 false] |} true =
  get_num_params {| parameters := [Param 5 false; Param 10 true] |} true.
Proof.
  assert (H : [Param 10 true; Param 5 false] ≡ₚ [Param 5 false; Param 10 true])
    by apply Permutation_swap.
  split; [exact H |].
  exact (get_num_params_permutation _ _ true H).
Defined.

(** X3: the full count is the trainable-only count plus the element counts
    of the frozen parameters. *)
Theorem get_num_params_split (model : nn_Module) :
  get_num_params model false
    = get_num_params model true + frozen_numel (parameters model).
Proof.
  rewrite get_num_params_all, get_num_params_trainable.
  apply get_num_params_frozen.
Qed.

(** X4: when no parameter has a negative element count, the trainable-only
    count lies between 0 and the full count. *)
Theorem get_num_params_bounds (model : nn_Module)
    (Hnonneg : Forall (λ p, 0 ≤ numel p) (parameters model)) :
  0 ≤ get_num_params model true ≤ get_num_params model false.
Proof.
  rewrite get_num_params_all, get_num_params_trainable.
  induction Hnonneg as [|p ps Hp _ IH]; simpl; [lia |].
  destruct (requires_grad p); lia.
Qed.

Lemma get_num_params_bounds_witness :
  0 ≤ get_num_params {| parameters := [Param 10 true; Param 5 false] |} true
    ≤ get_num_params {| parameters := [Param 10 true; Param 5 false] |} false.
Proof.
  apply (get_num_params_bounds {| parameters := [Param 10 true; Param 5 false] |}).
  simpl. repeat (constructor; [simpl; lia |]). constructor.
Defined.

(** X5: the filter changes nothing when every parameter is trainable, and
    leaves a count of 0 when none is. *)
Theorem get_num_params_uniform (model : nn_Module) :
  (Forall (λ p, requires_grad p = true) (parameters model) →
   get_num_params model true = get_num_params model false) ∧
  (Forall (λ p, requires_grad p = false) (parameters model) →
   get_num_params model true = 0).
Proof.
  rewrite get_num_params_all, get_num_params_trainable. split.
  - intros H. induction H as [|p ps Hp _ IH]; simpl; [reflexivity |].
    rewrite Hp, IH. reflexivity.
  - intros H. induction H as [|p ps Hp _ IH]; simpl; [reflexivity |].
    rewrite Hp. exact IH.
Qed.

Lemma get_num_params_uniform_witness :
  get_num_params {| parameters := [Param 10 true; Param 20 true] |} true =
  get_num_params {| parameters := [Param 10 true; Param 20 true] |} false ∧
  get_num_params {| parameters := [Param 10 false; Param 20 false] |} true = 0.
Proof.
  split.
  - apply (proj1 (get_num_params_uniform
                    {| parameters := [Param 10 true; Param 20 true] |})).
    simpl. repeat (constructor; [reflexivity |]). constructor.
  - apply (proj2 (get_num_params_uniform
                    {| parameters := [Param 10 false; Param 20 false] |})).
    simpl. repeat (constructor; [reflexivity |]). constructor.
Defined.

(** ** FLOPs per token, beyond positive head counts *)

(** X6: [get_num_flop_per_token] raises [ZeroDivisionError] exactly when
    [n_heads] is 0, whatever the other arguments; for every other head count,
    negative ones included, it returns a value, and for a negative head count
    the quotient it uses is still the floor: [n_heads*q + n_heads < dim <=
    n_heads*q]. *)
Theorem get_num_flop_per_token_raises_iff
    (num_params : Z) (cfg : ModelArgs) (t : Z) :
  (get_num_flop_per_token num_params cfg t = Raise ZeroDivisionError
     ↔ n_heads cfg = 0) ∧
  ((∃ v, get_num_flop_per_token num_params cfg t = Ok v) ↔ n_heads cfg ≠ 0) ∧
  (n_heads cfg < 0 →
     ∃ q, get_num_flop_per_token num_params cfg t
            = Ok (6 * num_params + 12 * n_layers cfg * n_heads cfg * q * t) ∧
          n_heads cfg * q + n_heads cfg < dim cfg ≤ n_heads cfg * q).
Proof.
  destruct cfg as [l h d]. simpl.
  destruct (Z.eq_dec h 0) as [-> | Hne].
  - split; [| split].
    + split; reflexivity.
    + split; [intros [v Hv]; discriminate Hv | intros H; contradiction H; reflexivity].
    + lia.
  - pose proof (get_num_flop_per_token_nonzero num_params
                  {| n_layers := l; n_heads := h; dim := d |} t Hne) as Hok.
    simpl in Hok. split; [| split].
    + rewrite Hok. split; [discriminate | intros; contradiction].
    + split; [intros _; exact Hne | intros _; eexists; exact Hok].
    + intros Hneg. exists (d / h). split; [exact Hok |].
      pose proof (Z.div_mod d h Hne) as Hdm.
      pose proof (Z.mod_neg_bound d h Hneg) as Hb. lia.
Qed.

Lemma get_num_flop_per_token_raises_iff_witness :
  ∃ q, get_num_flop_per_token 7 {| n_layers := 3; n_heads := -8; dim := 100 |} 5
         = Ok (6 * 7 + 12 * 3 * -8 * q * 5) ∧
       -8 * q + -8 < 100 ≤ -8 * q.
Proof.
  apply (proj2 (proj2 (get_num_flop_per_token_raises_iff 7
           {| n_layers := 3; n_heads := -8; dim := 100 |} 5))).
  simpl. lia.
Defined.

(** X7: when [dim] is a multiple of a non-zero [n_heads], the head count
    cancels: the estimate is [6*num_params + 12*n_layers*dim*seq_len]. *)
Theorem get_num_flop_per_token_divisible
    (num_params : Z) (cfg : ModelArgs) (t : Z)
    (Hh : n_heads cfg ≠ 0) (Hdiv : dim cfg mod n_heads cfg = 0) :
  get_num_flop_per_token num_params cfg t
    = Ok (6 * num_params + 12 * n_layers cfg * dim cfg * t).
Proof.
  rewrite get_num_flop_per_token_nonzero by exact Hh. f_equal.
  pose proof (Z.div_mod (dim cfg) (n_heads cfg) Hh) as Hdm.
  rewrite Hdiv, Z.add_0_r in Hdm.
  rewrite Hdm at 2.
  ring.
Qed.

Lemma get_num_flop_per_token_divisible_witness :
  get_num_flop_per_token 1000 {| n_layers := 2; n_heads := 4; dim := 16 |} 128
    = Ok (6 * 1000 + 12 * 2 * 16 * 128).
Proof.
  apply (get_num_flop_per_token_divisible 1000
           {| n_layers := 2; n_heads := 4; dim := 16 |} 128).
  - simpl. lia.
  - reflexivity.
Defined.

(** X8: for a positive head count and non-negative layer count and sequence
    length, rounding the head dimension down never raises the estimate above
    [6*num_params + 12*n_layers*dim*seq_len], and lowers it by at most
    [12*n_layers*(n_heads-1)*seq_len]. *)
Theorem get_num_flop_per_token_bounds
    (num_params : Z) (cfg : ModelArgs) (t : Z)
    (Hh : 0 < n_heads cfg) (Hl : 0 ≤ n_layers cfg) (Ht : 0 ≤ t) :
  ∃ v, get_num_flop_per_token num_params cfg t = Ok v ∧
       6 * num_params + 12 * n_layers cfg * (dim cfg - n_heads cfg + 1) * t ≤ v ∧
       v ≤ 6 * num_params + 12 * n_layers cfg * dim cfg * t.
Proof.
  destruct cfg as [l h d]. simpl in *.
  eexists. split.
  - apply get_num_flop_per_token_nonzero. simpl. lia.
  - simpl.
    pose proof (Z.div_mod d h ltac:(lia)) as Hdm.
    pose proof (Z.mod_pos_bound d h Hh) as Hb.
    assert (Hlt : 0 ≤ l * t) by (apply Z.mul_nonneg_nonneg; assumption).
    assert (Hlo : d - h + 1 ≤ h * (d / h)) by lia.
    assert (Hhi : h * (d / h) ≤ d) by lia.
    pose proof (Z.mul_le_mono_nonneg_l _ _ (l * t) Hlt Hlo) as H1.
    pose proof (Z.mul_le_mono_nonneg_l _ _ (l * t) Hlt Hhi) as H2.
    split; lia.
Qed.

Lemma get_num_flop_per_token_bounds_witness :
  ∃ v, get_num_flop_per_token 7 {| n_layers := 3; n_heads := 8; dim := 100 |} 5
         = Ok v ∧
       6 * 7 + 12 * 3 * (100 - 8 + 1) * 5 ≤ v ∧
       v ≤ 6 * 7 + 12 * 3 * 100 * 5.
Proof.
  apply (get_num_flop_per_token_bounds 7
           {| n_layers := 3; n_heads := 8; dim := 100 |} 5); simpl; lia.
Defined.

(** ** The peak-FLOPs table as a whole *)

Lemma starts_with_length (p s : string) :
  starts_with p s = true → (String.length p ≤ String.length s)%nat.
Proof.
  revert s. induction p as [|a p IH]; intros s; simpl.
  - lia.
  - destruct s as [|b s]; [discriminate |]. simpl.
    destruct (Ascii.eqb a b); [| discriminate].
    intros H. apply IH in H. lia.
Qed.

Lemma str_in_length (sub s : string) :
  str_in sub s = true → (String.length sub ≤ String.length s)%nat.
Proof.
  induction s as [|a s IH].
  - simpl. rewrite orb_false_r. apply starts_with_length.
  - change (str_in sub (String a s))
      with (starts_with sub (String a s) || str_in sub s).
    intros H. apply orb_true_iff in H as [H | H].
    + apply starts_with_length. exact H.
    + apply IH in H. simpl. lia.
Qed.

(** X9: whatever the device name, the returned peak is at least the A100
    constant 312e12 and at most 1979e12; in particular it is positive, so a
    caller can divide by it. *)
Theorem get_peak_flops_bounds (device_name : string) :
  312 * 10 ^ 12 ≤ get_peak_flops device_name ≤ 1979 * 10 ^ 12 ∧
  0 < get_peak_flops device_name.
Proof.
  unfold get_peak_flops, e12.
  destruct (str_in "A100" device_name); [lia |].
  destruct (str_in "H100" device_name); [| lia].
  destruct (str_in "NVL" device_name); [lia |].
  destruct (str_in "PCIe" device_name); lia.
Qed.

(** X10: the result differs from the A100 constant exactly for the names
    that contain "H100" and do not contain "A100"; "NVL" and "PCIe" count
    only for those names. *)
Theorem get_peak_flops_not_default (device_name : string) :
  get_peak_flops device_name ≠ 312 * 10 ^ 12
    ↔ substring_of "H100" device_name ∧ ¬ substring_of "A100" device_name.
Proof.
  rewrite <- str_in_false, <- str_in_spec. unfold get_peak_flops, e12.
  destruct (str_in "A100" device_name).
  - split; [intros H; contradiction H; reflexivity | intros [_ H]; discriminate H].
  - destruct (str_in "H100" device_name).
    + split; [intros _; split; reflexivity | intros _].
      destruct (str_in "NVL" device_name); [lia |].
      destruct (str_in "PCIe" device_name); lia.
    + split; [intros H; contradiction H; reflexivity | intros [H _]; discriminate H].
Qed.

(** X11: a name of fewer than four characters, the empty name included, gets
    the A100 constant. *)
Theorem get_peak_flops_short_name (device_name : string)
    (Hshort : (String.length device_name < 4)%nat) :
  get_peak_flops device_name = 312 * 10 ^ 12.
Proof.
  unfold get_peak_flops, e12.
  destruct (str_in "A100" device_name) eqn:HA; [reflexivity |].
  destruct (str_in "H100" device_name) eqn:HH; [| reflexivity].
  apply str_in_length in HH. simpl in HH. lia.
Qed.

Lemma get_peak_flops_short_name_witness :
  get_peak_flops "" = 312 * 10 ^ 12.
Proof.
  apply (get_peak_flops_short_name ""). simpl. lia.
Defined.

(** ** Colour themes in use *)

Lemma string_length_append (a b : string) :
  String.length (a +:+ b) = (String.length a + String.length b)%nat.
Proof.
  induction a as [|x a IH]; [reflexivity |].
  change (S (String.length (a +:+ b)) = S (String.length a + String.length b)).
  rewrite IH. reflexivity.
Qed.

Lemma string_append_nil_r (a : string) : a +:+ "" = a.
Proof.
  induction a as [|x a IH]; [reflexivity |].
  change (String x (a +:+ "") = String x a). rewrite IH. reflexivity.
Qed.

(** X12: the [Color] theme gives different codes to different names, and no
    code of it is a code of the [NoColor] theme. *)
Theorem Color_injective (c1 c2 : color_name) (Heq : Color c1 = Color c2) :
  c1 = c2 ∧ ∀ c, Color c1 ≠ NoColor c.
Proof.
  split.
  - destruct c1, c2; first [reflexivity | discriminate Heq].
  - intros c. destruct c1, c; discriminate.
Qed.

Lemma Color_injective_witness : red = red ∧ ∀ c, Color red ≠ NoColor c.
Proof. exact (Color_injective red red eq_refl). Defined.

(** X13: a text put between a colour code and the reset code of a theme, as
    a caller formats it, is the text itself with the [NoColor] theme; with
    the [Color] theme it holds the text, starts with ESC, and is ten
    characters longer (each code has five characters). *)
Theorem color_wrapping (c : color_name) (text : string) :
  NoColor c +:+ text +:+ NoColor reset = text ∧
  (∃ rest, Color c +:+ text +:+ Color reset = String ESC rest) ∧
  substring_of text (Color c +:+ text +:+ Color reset) ∧
  String.length (Color c +:+ text +:+ Color reset)
    = (String.length text + 10)%nat ∧
  String.length (Color c) = 5%nat.
Proof.
  split; [| split; [| split; [| split]]].
  - destruct c; change (text +:+ "" = text); apply string_append_nil_r.
  - destruct c; eexists; reflexivity.
  - exists (Color c), (Color reset). reflexivity.
  - rewrite !string_length_append. destruct c; simpl; lia.
  - destruct c; reflexivity.
Qed.

(** ** Sequences of calls *)

Lemma exec_bind {A B} (m1 : M A) (m2 : M B) (w : world) :
  exec (m1 >> m2)%M w = exec m2 (exec m1 w).
Proof. unfold exec, m_bind. destruct (m1 w) as [a w1]. reflexivity. Qed.

Lemma emitted_bind {A B} (m1 : M A) (m2 : M B) (w : world)
    (es1 es2 : list event) :
  history (exec m1 w) = (history w ++ es1)%list →
  history (exec m2 (exec m1 w)) = (history (exec m1 w) ++ es2)%list →
  emitted (m1 >> m2)%M w = (es1 ++ es2)%list.
Proof.
  intros H1 H2. apply emitted_app.
  rewrite exec_bind, H2, H1, List.app_assoc. reflexivity.
Qed.

Lemma warn_overwrite_env_history (env val : string) (w : world) :
  history (exec (_warn_overwrite_env env val) w)
    = (history w ++ guarded_write (os_environ w) env val)%list.
Proof. unfold exec. rewrite warn_overwrite_env_run. reflexivity. Qed.

Lemma warnings_app (es1 es2 : list event) :
  warnings (es1 ++ es2) = (warnings es1 ++ warnings es2)%list.
Proof. apply omap_app. Qed.

Lemma warnings_guarded_write (E : gmap string string) (k v : string) :
  warnings (guarded_write E k v) =
    match E !! k with
    | Some old => [overwrite_msg k old v]
    | None => []
    end.
Proof. unfold guarded_write. destruct (E !! k); reflexivity. Qed.

(** X14: two calls of [_warn_overwrite_env] on different variables do not
    see each other: in either order the environment ends up the same, each
    call emits what it would emit alone, and the same warnings are logged (in
    the order of the calls). *)
Theorem warn_overwrite_env_commute (k1 v1 k2 v2 : string) (w : world)
    (Hne : k1 ≠ k2) :
  os_environ (exec (_warn_overwrite_env k1 v1 >> _warn_overwrite_env k2 v2)%M w)
    = os_environ (exec (_warn_overwrite_env k2 v2 >> _warn_overwrite_env k1 v1)%M w) ∧
  emitted (_warn_overwrite_env k1 v1 >> _warn_overwrite_env k2 v2)%M w
    = (emitted (_warn_overwrite_env k1 v1) w ++
       emitted (_warn_overwrite_env k2 v2) w)%list ∧
  warnings (emitted (_warn_overwrite_env k1 v1 >> _warn_overwrite_env k2 v2)%M w)
    ≡ₚ warnings (emitted (_warn_overwrite_env k2 v2 >> _warn_overwrite_env k1 v1)%M w).
Proof.
  assert (Hseq : ∀ a va b vb, a ≠ b →
            emitted (_warn_overwrite_env a va >> _warn_overwrite_env b vb)%M w
            = (guarded_write (os_environ w) a va ++
               guarded_write (os_environ w) b vb)%list).
  { intros a va b vb Hab.
    apply emitted_bind; [apply warn_overwrite_env_history |].
    rewrite warn_overwrite_env_history, warn_overwrite_env_environ.
    rewrite guarded_write_insert_ne by exact Hab. reflexivity. }
  split; [| split].
  - rewrite !exec_bind, !warn_overwrite_env_environ.
    apply insert_insert_ne. congruence.
  - rewrite Hseq by exact Hne. rewrite !warn_overwrite_env_emitted. reflexivity.
  - rewrite (Hseq k1 v1 k2 v2) by exact Hne.
    rewrite (Hseq k2 v2 k1 v1) by congruence.
    rewrite !warnings_app. apply Permutation_app_comm.
Qed.

Lemma warn_overwrite_env_commute_witness :
  let w := World {[ DUMP_ON_TIMEOUT := "0" ]} [] in
  DUMP_ON_TIMEOUT ≠ TRACE_FILE ∧
  os_environ (exec (_warn_overwrite_env DUMP_ON_TIMEOUT "1" >>
                    _warn_overwrite_env TRACE_FILE "f")%M w)
    = os_environ (exec (_warn_overwrite_env TRACE_FILE "f" >>
                        _warn_overwrite_env DUMP_ON_TIMEOUT "1")%M w).
Proof.
  cbv zeta.
  assert (H : DUMP_ON_TIMEOUT ≠ TRACE_FILE) by discriminate.
  split; [exact H |].
  exact (proj1 (warn_overwrite_env_commute DUMP_ON_TIMEOUT "1" TRACE_FILE "f"
                  (World {[ DUMP_ON_TIMEOUT := "0" ]} []) H)).
Defined.

(** X15: setting a variable to the value it already has leaves the whole
    environment as it was (only the warning is logged), and a repeated call
    with the same value leaves the environment of the first call. *)
Theorem warn_overwrite_env_idempotent (env val : string) (w : world) :
  (os_environ w !! env = Some val →
   os_environ (exec (_warn_overwrite_env env val) w) = os_environ w ∧
   emitted (_warn_overwrite_env env val) w
     = [LogWarning (overwrite_msg env val val); EnvWrite env val]) ∧
  os_environ (exec (_warn_overwrite_env env val >> _warn_overwrite_env env val)%M w)
    = os_environ (exec (_warn_overwrite_env env val) w).
Proof.
  split.
  - intros Hset. rewrite warn_overwrite_env_environ, warn_overwrite_env_emitted.
    unfold guarded_write. rewrite Hset. split; [| reflexivity].
    apply insert_id. exact Hset.
  - rewrite exec_bind, !warn_overwrite_env_environ. apply insert_insert_eq.
Qed.

Lemma warn_overwrite_env_idempotent_witness :
  let w := World {[ DUMP_ON_TIMEOUT := "1" ]} [] in
  os_environ (exec (_warn_overwrite_env DUMP_ON_TIMEOUT "1") w) = os_environ w ∧
  emitted (_warn_overwrite_env DUMP_ON_TIMEOUT "1") w
    = [LogWarning (overwrite_msg DUMP_ON_TIMEOUT "1" "1");
       EnvWrite DUMP_ON_TIMEOUT "1"].
Proof.
  cbv zeta.
  apply (proj1 (warn_overwrite_env_idempotent DUMP_ON_TIMEOUT "1"
                  (World {[ DUMP_ON_TIMEOUT := "1" ]} []))).
  simpl. apply lookup_singleton_eq.
Defined.

(** ** The environment around the start of the process group *)

Lemma replay_app (E : gmap string string) (es1 es2 : list event) :
  replay E (es1 ++ es2) = replay (replay E es1) es2.
Proof. apply foldl_app. Qed.

Lemma replay_guarded_write (E0 E : gmap string string) (k v : string) :
  replay E0 (guarded_write E k v) = <[k := v]> E0.
Proof. unfold guarded_write. destruct (E !! k); reflexivity. Qed.

Lemma no_init_guarded_write (E : gmap string string) (k v : string) :
  Forall (λ e, is_init_process_group e = false) (guarded_write E k v).
Proof.
  unfold guarded_write.
  destruct (E !! k); repeat (constructor; [reflexivity |]); constructor.
Qed.

(** The place of the one event of its kind in a history. *)
Lemma split_at_init (l1 l2 pre post : list event) (x y : event) :
  Forall (λ e, is_init_process_group e = false) l1 →
  Forall (λ e, is_init_process_group e = false) l2 →
  is_init_process_group y = true →
  (l1 ++ x :: l2 = pre ++ y :: post)%list →
  pre = l1 ∧ y = x ∧ post = l2.
Proof.
  intros H1 H2 Hy. revert pre.
  induction H1 as [|a l1 Ha _ IH]; intros pre Heq; simpl in Heq.
  - destruct pre as [|p pre]; simpl in Heq.
    + injection Heq as -> ->. auto.
    + injection Heq as _ Heq. exfalso.
      assert (Hin : y ∈ l2).
      { rewrite Heq. apply elem_of_app. right. apply list_elem_of_here. }
      rewrite Forall_forall in H2. apply H2 in Hin. congruence.
  - destruct pre as [|p pre]; simpl in Heq.
    + injection Heq as -> _. congruence.
    + injection Heq as -> Heq.
      destruct (IH pre Heq) as (-> & -> & ->). auto.
Qed.

Lemma init_trace_guards (E : gmap string string) (job_config : JobConfig) :
  init_trace E job_config =
    (init_guards E job_config ++
     InitProcessGroup "nccl" (Timedelta (init_timeout_seconds (comm job_config)))
     :: [EnvWrite AVOID_RECORD_STREAMS "1"])%list.
Proof.
  unfold init_trace, init_guards. cbv zeta.
  rewrite <- !List.app_assoc. reflexivity.
Qed.

Lemma no_init_init_guards (E : gmap string string) (job_config : JobConfig) :
  Forall (λ e, is_init_process_group e = false) (init_guards E job_config).
Proof.
  unfold init_guards. cbv zeta.
  repeat first [apply Forall_app_2 | apply no_init_guarded_write].
  destruct (0 <? trace_buf_size (comm job_config)).
  - repeat first [apply Forall_app_2 | apply no_init_guarded_write].
    constructor; [reflexivity | constructor].
  - constructor.
Qed.

Lemma replay_init_guards (E0 E : gmap string string) (job_config : JobConfig) :
  replay E0 (init_guards E job_config) =
    let n := trace_buf_size (comm job_config) in
    let dump_dir := dump_folder (job job_config) +:+ "/comm_trace" in
    let E2 := <[TRACE_BUFFER_SIZE := str_int n]>
                (<[ASYNC_ERROR_HANDLING := SKIP_CLEANUP]> E0) in
    if 0 <? n then
      <[TRACE_FILE := dump_dir +:+ "/rank_"]> (<[DUMP_ON_TIMEOUT := "1"]> E2)
    else E2.
Proof.
  unfold init_guards. cbv zeta.
  rewrite !replay_app, !replay_guarded_write.
  destruct (0 <? trace_buf_size (comm job_config)).
  - rewrite !replay_app, !replay_guarded_write. reflexivity.
  - reflexivity.
Qed.

(** X16: at the moment [init_distributed] starts the process group, the
    flight-recorder variables already hold their new values
    (TORCH_NCCL_ASYNC_ERROR_HANDLING is "3", TORCH_NCCL_TRACE_BUFFER_SIZE the
    configured size, and for a positive size TORCH_NCCL_DUMP_ON_TIMEOUT and
    TORCH_NCCL_DEBUG_INFO_TEMP_FILE are set), whereas
    TORCH_NCCL_AVOID_RECORD_STREAMS still has the value it had before the
    call: its write is the only thing that happens after the start. *)
Theorem init_distributed_environ_at_init (job_config : JobConfig) (w : world)
    (pre post : list event) (backend : string) (timeout : timedelta)
    (Hsplit : emitted (init_distributed job_config) w
              = (pre ++ InitProcessGroup backend timeout :: post)%list) :
  let E := replay (os_environ w) pre in
  let n := trace_buf_size (comm job_config) in
  let dump_dir := dump_folder (job job_config) +:+ "/comm_trace" in
  E !! "TORCH_NCCL_ASYNC_ERROR_HANDLING" = Some "3" ∧
  E !! "TORCH_NCCL_TRACE_BUFFER_SIZE" = Some (str_int n) ∧
  (0 < n → E !! "TORCH_NCCL_DUMP_ON_TIMEOUT" = Some "1" ∧
           E !! "TORCH_NCCL_DEBUG_INFO_TEMP_FILE" = Some (dump_dir +:+ "/rank_")) ∧
  E !! "TORCH_NCCL_AVOID_RECORD_STREAMS"
    = os_environ w !! "TORCH_NCCL_AVOID_RECORD_STREAMS" ∧
  post = [EnvWrite "TORCH_NCCL_AVOID_RECORD_STREAMS" "1"] ∧
  replay E (InitProcessGroup backend timeout :: post)
    = os_environ (exec (init_distributed job_config) w).
Proof.
  cbv zeta.
  rewrite init_distributed_emitted, init_trace_guards in Hsplit.
  apply split_at_init in Hsplit as (-> & _ & ->);
    [| apply no_init_init_guards
     | constructor; [reflexivity | constructor]
     | reflexivity].
  rewrite init_distributed_environ, replay_init_guards. cbv zeta.
  destruct (Z.ltb_spec 0 (trace_buf_size (comm job_config))) as [Hn | Hn].
  - repeat split;
      repeat first [ apply lookup_insert_eq
                   | rewrite lookup_insert_ne by discriminate ];
      reflexivity.
  - repeat split; try lia;
      repeat first [ apply lookup_insert_eq
                   | rewrite lookup_insert_ne by discriminate ];
      reflexivity.
Qed.

Lemma init_distributed_environ_at_init_witness :
  let w := World {[ AVOID_RECORD_STREAMS := "0" ]} [] in
  let E := replay (os_environ w)
             [EnvWrite ASYNC_ERROR_HANDLING "3"; EnvWrite TRACE_BUFFER_SIZE "0"] in
  E !! "TORCH_NCCL_ASYNC_ERROR_HANDLING" = Some "3" ∧
  E !! "TORCH_NCCL_AVOID_RECORD_STREAMS" = Some "0".
Proof.
  cbv zeta.
  pose (cfg := {| comm := {| trace_buf_size := 0; init_timeout_seconds := 260 |};
                  job := {| dump_folder := "./outputs" |} |}).
  pose (w := World {[ AVOID_RECORD_STREAMS := "0" ]} []).
  assert (Hsplit : emitted (init_distributed cfg) w =
            ([EnvWrite ASYNC_ERROR_HANDLING "3"; EnvWrite TRACE_BUFFER_SIZE "0"] ++
             InitProcessGroup "nccl" (Timedelta 260)
             :: [EnvWrite AVOID_RECORD_STREAMS "1"])%list)
    by (vm_compute; reflexivity).
  pose proof (init_distributed_environ_at_init cfg w _ _ _ _ Hsplit) as H.
  cbv zeta in H. destruct H as (H1 & _ & _ & H4 & _).
  split; [exact H1 |].
  etransitivity; [exact H4 |]. vm_compute. reflexivity.
Defined.

(** ** What [init_distributed] leaves alone, and running it again *)

(** X17: [init_distributed] changes no variable other than the five it
    names, and never unsets a variable. *)
Theorem init_distributed_frame (job_config : JobConfig) (w : world) :
  let E' := os_environ (exec (init_distributed job_config) w) in
  (∀ k, k ∉ ["TORCH_NCCL_ASYNC_ERROR_HANDLING"; "TORCH_NCCL_TRACE_BUFFER_SIZE";
             "TORCH_NCCL_DUMP_ON_TIMEOUT"; "TORCH_NCCL_DEBUG_INFO_TEMP_FILE";
             "TORCH_NCCL_AVOID_RECORD_STREAMS"] →
        E' !! k = os_environ w !! k) ∧
  (∀ k, is_Some (os_environ w !! k) → is_Some (E' !! k)).
Proof.
  cbv zeta. rewrite init_distributed_environ. cbv zeta. split.
  - intros k Hk.
    assert (k ≠ ASYNC_ERROR_HANDLING ∧ k ≠ TRACE_BUFFER_SIZE ∧
            k ≠ DUMP_ON_TIMEOUT ∧ k ≠ TRACE_FILE ∧ k ≠ AVOID_RECORD_STREAMS)
      as (H1 & H2 & H3 & H4 & H5).
    { repeat split; intros ->; apply Hk; elem_listed. }
    destruct (0 <? trace_buf_size (comm job_config));
      repeat (rewrite lookup_insert_ne by congruence); reflexivity.
  - intros k Hk.
    destruct (0 <? trace_buf_size (comm job_config));
      repeat (apply lookup_insert_is_Some'; right); exact Hk.
Qed.

Lemma init_distributed_frame_witness :
  let w := World {[ "HOME" := "/root" ]} [] in
  let cfg := {| comm := {| trace_buf_size := 2000; init_timeout_seconds := 260 |};
                job := {| dump_folder := "./outputs" |} |} in
  os_environ (exec (init_distributed cfg) w) !! "HOME" = Some "/root".
Proof.
  cbv zeta.
  etransitivity.
  - apply (proj1 (init_distributed_frame
                    {| comm := {| trace_buf_size := 2000; init_timeout_seconds := 260 |};
                       job := {| dump_folder := "./outputs" |} |}
                    (World {[ "HOME" := "/root" ]} []))).
    intros H. elem_absurd H.
  - vm_compute. reflexivity.
Defined.

Lemma warnings_init_trace (E : gmap string string) (job_config : JobConfig) :
  warnings (init_trace E job_config) =
    let n := trace_buf_size (comm job_config) in
    let dump_dir := dump_folder (job job_config) +:+ "/comm_trace" in
    (warnings (guarded_write E ASYNC_ERROR_HANDLING SKIP_CLEANUP) ++
     warnings (guarded_write E TRACE_BUFFER_SIZE (str_int n)) ++
     (if 0 <? n then
        warnings (guarded_write E DUMP_ON_TIMEOUT "1") ++
        warnings (guarded_write E TRACE_FILE (dump_dir +:+ "/rank_"))
      else []))%list.
Proof.
  unfold init_trace. cbv zeta. rewrite !warnings_app.
  destruct (0 <? trace_buf_size (comm job_config)).
  - rewrite !warnings_app. simpl. rewrite app_nil_r. reflexivity.
  - simpl. reflexivity.
Qed.

(** X18: a second run of [init_distributed] with the same configuration
    leaves the environment of the first run, and warns once for every
    flight-recorder variable it writes (two, or four for a positive trace
    buffer size), each time with the old value equal to the new one; it never
    warns about TORCH_NCCL_AVOID_RECORD_STREAMS. *)
Theorem init_distributed_twice (job_config : JobConfig) (w : world) :
  let w1 := exec (init_distributed job_config) w in
  let n := trace_buf_size (comm job_config) in
  let trace_file := (dump_folder (job job_config) +:+ "/comm_trace") +:+ "/rank_" in
  os_environ (exec (init_distributed job_config) w1) = os_environ w1 ∧
  warnings (emitted (init_distributed job_config) w1) =
    ([overwrite_msg "TORCH_NCCL_ASYNC_ERROR_HANDLING" "3" "3";
      overwrite_msg "TORCH_NCCL_TRACE_BUFFER_SIZE" (str_int n) (str_int n)] ++
     (if 0 <? n then
        [overwrite_msg "TORCH_NCCL_DUMP_ON_TIMEOUT" "1" "1";
         overwrite_msg "TORCH_NCCL_DEBUG_INFO_TEMP_FILE" trace_file trace_file]
      else []))%list.
Proof.
  cbv zeta. split.
  - rewrite !init_distributed_environ. cbv zeta.
    apply map_eq. intros k.
    destruct (0 <? trace_buf_size (comm job_config));
      rewrite !lookup_insert; repeat case_decide; congruence.
  - rewrite init_distributed_emitted, warnings_init_trace. cbv zeta.
    rewrite !warnings_guarded_write, init_distributed_environ. cbv zeta.
    destruct (0 <? trace_buf_size (comm job_config));
      repeat first [ rewrite lookup_insert_eq
                   | rewrite lookup_insert_ne by discriminate ];
      reflexivity.
Qed.

(** X19: [init_distributed] logs no warning exactly when none of the
    flight-recorder variables it writes is set beforehand:
    TORCH_NCCL_ASYNC_ERROR_HANDLING and TORCH_NCCL_TRACE_BUFFER_SIZE, and for
    a positive trace buffer size also TORCH_NCCL_DUMP_ON_TIMEOUT and
    TORCH_NCCL_DEBUG_INFO_TEMP_FILE. *)
Theorem init_distributed_silent_iff (job_config : JobConfig) (w : world) :
  warnings (emitted (init_distributed job_config) w) = [] ↔
  os_environ w !! "TORCH_NCCL_ASYNC_ERROR_HANDLING" = None ∧
  os_environ w !! "TORCH_NCCL_TRACE_BUFFER_SIZE" = None ∧
  (0 < trace_buf_size (comm job_config) →
   os_environ w !! "TORCH_NCCL_DUMP_ON_TIMEOUT" = None ∧
   os_environ w !! "TORCH_NCCL_DEBUG_INFO_TEMP_FILE" = None).
Proof.
  rewrite init_distributed_emitted, warnings_init_trace. cbv zeta.
  rewrite !warnings_guarded_write.
  change ASYNC_ERROR_HANDLING with "TORCH_NCCL_ASYNC_ERROR_HANDLING".
  change TRACE_BUFFER_SIZE with "TORCH_NCCL_TRACE_BUFFER_SIZE".
  change DUMP_ON_TIMEOUT with "TORCH_NCCL_DUMP_ON_TIMEOUT".
  change TRACE_FILE with "TORCH_NCCL_DEBUG_INFO_TEMP_FILE".
  destruct (os_environ w !! "TORCH_NCCL_ASYNC_ERROR_HANDLING");
    [split; [discriminate | intros [H _]; discriminate H] |].
  destruct (os_environ w !! "TORCH_NCCL_TRACE_BUFFER_SIZE");
    [split; [discriminate | intros (_ & H & _); discriminate H] |].
  destruct (Z.ltb_spec 0 (trace_buf_size (comm job_config))) as [Hn | Hn].
  - destruct (os_environ w !! "TORCH_NCCL_DUMP_ON_TIMEOUT");
      [split; [discriminate | intros (_ & _ & H); destruct (H Hn) as [H' _]; discriminate H'] |].
    destruct (os_environ w !! "TORCH_NCCL_DEBUG_INFO_TEMP_FILE");
      [split; [discriminate | intros (_ & _ & H); destruct (H Hn) as [_ H']; discriminate H'] |].
    split; auto.
  - split; [| reflexivity]. intros _. repeat split; lia.
Qed.

(** ** What [set_pg_timeouts] does, counted, and the timeouts it leaves *)

Lemma set_pg_timeouts_history (str_timedelta : timedelta → string)
    (t : timedelta) (mesh : DeviceMesh) (w : world) :
  history (exec (set_pg_timeouts str_timedelta t mesh) w) =
    (history w ++
     [LogInfo ("Synchronizing and adjusting timeout for all ProcessGroups to "
               +:+ str_timedelta t); Barrier; CudaSynchronize] ++
     (SetPgTimeout t <$> ((Some <$> dim_groups mesh) ++ [None])))%list.
Proof. unfold exec. rewrite set_pg_timeouts_run. reflexivity. Qed.

Lemma filter_set_pg_timeout_none (P : event → Prop) `{!∀ e, Decision (P e)}
    (t : timedelta) (gs : list (option ProcessGroup)) :
  (∀ g, ¬ P (SetPgTimeout t g)) → filter P (SetPgTimeout t <$> gs) = [].
Proof.
  intros HP. induction gs as [|g gs IH]; [reflexivity |].
  rewrite fmap_cons, filter_cons_False by apply HP. exact IH.
Qed.

Lemma filter_set_pg_timeout_all (P : event → Prop) `{!∀ e, Decision (P e)}
    (t : timedelta) (gs : list (option ProcessGroup)) :
  (∀ g, P (SetPgTimeout t g)) →
  filter P (SetPgTimeout t <$> gs) = SetPgTimeout t <$> gs.
Proof.
  intros HP. induction gs as [|g gs IH]; [reflexivity |].
  rewrite fmap_cons, filter_cons_True by apply HP. rewrite IH. reflexivity.
Qed.

(** X20: whatever the mesh, one call of [set_pg_timeouts] passes exactly one
    barrier and one device synchronisation and changes exactly [ndim + 1]
    timeouts; it does nothing else apart from its log line (no environment
    write, no directory, no process-group start). *)
Theorem set_pg_timeouts_counts (str_timedelta : timedelta → string)
    (timeout : timedelta) (world_mesh : DeviceMesh) (w : world) :
  let es := emitted (set_pg_timeouts str_timedelta timeout world_mesh) w in
  length (filter (λ e, e = Barrier) es) = 1%nat ∧
  length (filter (λ e, e = CudaSynchronize) es) = 1%nat ∧
  length (filter (λ e, is_set_pg_timeout e = true) es) = S (ndim world_mesh) ∧
  length (effects es) = (ndim world_mesh + 3)%nat ∧
  length (filter (λ e, is_log e = true) es) = 1%nat.
Proof.
  cbv zeta.
  rewrite (emitted_app _ _ _ (set_pg_timeouts_history _ _ _ _)).
  unfold effects. rewrite !filter_app.
  rewrite !(filter_set_pg_timeout_none (λ e, e = Barrier)) by discriminate.
  rewrite !(filter_set_pg_timeout_none (λ e, e = CudaSynchronize)) by discriminate.
  rewrite !(filter_set_pg_timeout_none (λ e, is_log e = true)) by discriminate.
  rewrite !(filter_set_pg_timeout_all (λ e, is_set_pg_timeout e = true))
    by reflexivity.
  rewrite !(filter_set_pg_timeout_all (λ e, is_log e = false)) by reflexivity.
  rewrite !length_app, !length_fmap, !length_app, !length_fmap. unfold ndim.
  repeat split; simpl; lia.
Qed.

Lemma pg_timeout_from_app (d : ProcessGroup) (acc : option timedelta)
    (es1 es2 : list event) (g : ProcessGroup) :
  pg_timeout_from d acc (es1 ++ es2) g
    = pg_timeout_from d (pg_timeout_from d acc es1 g) es2 g.
Proof. apply foldl_app. Qed.

Lemma pg_timeout_from_set (d : ProcessGroup) (acc : option timedelta)
    (t : timedelta) (gs : list (option ProcessGroup)) (g : ProcessGroup) :
  pg_timeout_from d acc (SetPgTimeout t <$> gs) g
    = if decide (g ∈ resolve_group d <$> gs) then Some t else acc.
Proof.
  revert acc. induction gs as [|g0 gs IH]; intros acc.
  - rewrite decide_False by apply not_elem_of_nil. reflexivity.
  - rewrite !fmap_cons. unfold pg_timeout_from in *. simpl. rewrite IH.
    destruct (decide (g ∈ resolve_group d <$> gs)) as [Hin | Hnin].
    + rewrite decide_True by (apply list_elem_of_further; exact Hin). reflexivity.
    + destruct (decide (resolve_group d g0 = g)) as [<- | Hne].
      * rewrite decide_True by apply list_elem_of_here. reflexivity.
      * rewrite decide_False; [reflexivity |].
        intros Hin. apply elem_of_cons in Hin as [Heq | Hin];
          [apply Hne; symmetry; exact Heq | contradiction].
Qed.

Lemma resolve_group_list (d : ProcessGroup) (gs : list ProcessGroup)
    (g : ProcessGroup) :
  g ∈ resolve_group d <$> ((Some <$> gs) ++ [None])%list ↔ g ∈ d :: gs.
Proof.
  rewrite fmap_app, <- list_fmap_compose, elem_of_app, elem_of_cons.
  simpl. rewrite list_elem_of_singleton.
  assert (Hid : (resolve_group d ∘ Some) <$> gs = gs).
  { induction gs as [|x gs IH]; [reflexivity |].
    rewrite fmap_cons, IH. reflexivity. }
  rewrite Hid. tauto.
Qed.

Lemma pg_timeout_from_call (d : ProcessGroup) (acc : option timedelta)
    (msg : string) (t : timedelta) (mesh : DeviceMesh) (g : ProcessGroup) :
  pg_timeout_from d acc
    ([LogInfo msg; Barrier; CudaSynchronize] ++
     (SetPgTimeout t <$> ((Some <$> dim_groups mesh) ++ [None])))%list g
    = if decide (g ∈ d :: dim_groups mesh) then Some t else acc.
Proof.
  rewrite pg_timeout_from_app. simpl. rewrite pg_timeout_from_set.
  destruct (decide (g ∈ d :: dim_groups mesh)) as [Hin | Hnin].
  - rewrite decide_True by (apply resolve_group_list; exact Hin). reflexivity.
  - rewrite decide_False by (rewrite resolve_group_list; exact Hnin). reflexivity.
Qed.

(** X21: with [None] resolved to the default group of the runtime, one call
    of [set_pg_timeouts] leaves the new timeout on the default group and on
    exactly the groups of the mesh.  After two calls in a row, with timeouts
    [t1] and [t2] on meshes [mesh1] and [mesh2], the default group and every
    group of [mesh2] have [t2]; so has the group of a 1-D [mesh1] over all the
    ranks, which is the default group.  A group of [mesh1] that is neither in
    [mesh2] nor the default group keeps [t1], and any other group is not
    touched. *)
Theorem set_pg_timeouts_last_wins (str_timedelta : timedelta → string)
    (default_group : ProcessGroup)
    (t1 t2 : timedelta) (mesh1 mesh2 : DeviceMesh) (w : world) :
  let es1 := emitted (set_pg_timeouts str_timedelta t1 mesh1) w in
  let es := emitted (set_pg_timeouts str_timedelta t1 mesh1 >>
                     set_pg_timeouts str_timedelta t2 mesh2)%M w in
  (∀ g, pg_timeout default_group es1 g
        = if decide (g ∈ default_group :: dim_groups mesh1) then Some t1
          else None) ∧
  (∀ g, pg_timeout default_group es g
        = if decide (g ∈ default_group :: dim_groups mesh2) then Some t2
          else if decide (g ∈ dim_groups mesh1) then Some t1
          else None) ∧
  pg_timeout default_group es default_group = Some t2 ∧
  (dim_groups mesh1 = [default_group] →
   ∀ g, g ∈ dim_groups mesh1 → pg_timeout default_group es g = Some t2).
Proof.
  cbv zeta.
  rewrite (emitted_app _ _ _ (set_pg_timeouts_history _ _ _ _)).
  rewrite (emitted_bind _ _ _ _ _ (set_pg_timeouts_history _ _ _ _)
             (set_pg_timeouts_history _ _ _ _)).
  unfold pg_timeout.
  assert (Htwo : ∀ g,
    pg_timeout_from default_group None
      (([LogInfo ("Synchronizing and adjusting timeout for all ProcessGroups to "
                  +:+ str_timedelta t1); Barrier; CudaSynchronize] ++
        (SetPgTimeout t1 <$> ((Some <$> dim_groups mesh1) ++ [None]))) ++
       [LogInfo ("Synchronizing and adjusting timeout for all ProcessGroups to "
                 +:+ str_timedelta t2); Barrier; CudaSynchronize] ++
       (SetPgTimeout t2 <$> ((Some <$> dim_groups mesh2) ++ [None])))%list g
    = if decide (g ∈ default_group :: dim_groups mesh2) then Some t2
      else if decide (g ∈ dim_groups mesh1) then Some t1
      else None).
  { intros g. rewrite pg_timeout_from_app, !pg_timeout_from_call.
    destruct (decide (g ∈ default_group :: dim_groups mesh2)) as [Hin2 | Hnin2];
      [reflexivity |].
    destruct (decide (g ∈ dim_groups mesh1)) as [Hin1 | Hnin1].
    - rewrite decide_True by (apply list_elem_of_further; exact Hin1).
      reflexivity.
    - rewrite decide_False; [reflexivity |].
      intros Hin. apply elem_of_cons in Hin as [-> | Hin]; [| contradiction].
      apply Hnin2, list_elem_of_here. }
  split; [| split; [| split]].
  - intros g. apply pg_timeout_from_call.
  - exact Htwo.
  - rewrite Htwo. rewrite decide_True by apply list_elem_of_here. reflexivity.
  - intros H1d g Hg. rewrite H1d in Hg.
    apply list_elem_of_singleton in Hg as ->.
    rewrite Htwo. rewrite decide_True by apply list_elem_of_here. reflexivity.
Qed.

Lemma set_pg_timeouts_last_wins_witness :
  let world := PG 0 in
  let es := emitted (set_pg_timeouts (λ _, "t") (Timedelta 100) (Mesh [world]) >>
                     set_pg_timeouts (λ _, "t") (Timedelta 7) (Mesh [PG 1; PG 2]))%M
              (World ∅ []) in
  dim_groups (Mesh [world]) = [world] ∧
  ∀ g, g ∈ dim_groups (Mesh [world]) → pg_timeout world es g = Some (Timedelta 7).
Proof.
  cbv zeta. split; [reflexivity |].
  apply (proj2 (proj2 (proj2
           (set_pg_timeouts_last_wins (λ _, "t") (PG 0) (Timedelta 100) (Timedelta 7)
              (Mesh [PG 0]) (Mesh [PG 1; PG 2]) (World ∅ []))))).
  reflexivity.
Defined.
